(** * Tinky: clip feed, access policy and watch-progress persistence

    A shallow embedding of the orchestration logic of the application:

    - [ClipsService] (src/lib/clipsService.ts): the local cache, the remote
      table, the combined read and write paths, the films built from the
      rows of the content store, the access check and the index helpers;
    - [Watch] (src/app/tabs/watch.tsx): [loadFilmAndProgress],
      [saveProgress], [handleClipChange] and [handleProgress];
    - [Player] (src/components/VerticalVideoPlayer.tsx, the expo-av version
      with [isPlaying]): the per-item state of [VideoItem], its visibility
      effect, [togglePlayPause], [handlePlaybackStatusUpdate], and the
      feed's [onViewableItemsChanged] and [handleProgress].

    JavaScript numbers that are used as indices and counts are integers of
    [Z]; playback times are rationals of [Q] (every finite double is one, and
    [Math.floor] and [%] are exact on them).  The collaborators (AsyncStorage,
    the Supabase table, the console, [Alert] and the video handles) are a
    [World] that handlers read and update; every call a handler issues is
    appended to the world's call log, and the world says which calls fail.
    A handler runs to its end before the next event is taken: the
    interleaving of the awaits of two handlers is not part of the model. *)

From Stdlib Require Import ZArith QArith Qround List Bool Lia.
From stdpp Require Import base option gmap strings list sorting.

Close Scope Q_scope.
Local Open Scope Z_scope.

(** ** Data model (clipsService.ts, lines 4-32) *)

Record Clip := mkClip {
  clip_id : string;
  clip_title : string;
  hlsUrl : string;
  clip_duration : Q;
  order : Z;
  isPremium : option bool          (* isPremium?: boolean *)
}.

Record Film := mkFilm {
  film_id : string;
  film_title : string;
  clips : list Clip;
  totalClips : Z;
  freeClipLimit : Z
}.

Record WatchProgress := mkProgress {
  filmId : string;
  currentClipIndex : Z;
  currentTime : Q;
  lastWatchedAt : string;
  userId : string
}.

(** A row of the remote [watch_progress] table, as [syncProgressToCloud]
    writes it and [getCloudProgress] reads it. *)
Record Row := mkRow {
  row_user_id : string;
  row_film_id : string;
  current_clip_index : Z;
  playback_time : Q;
  last_watched_at : string;
  updated_at : string
}.

(** ** The world of collaborators *)

(** What a remote request does: it answers, it answers with an [error]
    field, or the client throws (no network). *)
Inductive remote_outcome := RemoteOk | RemoteError | RemoteThrows.

(** Calls issued to the collaborators, in the order they are issued. *)
Inductive call :=
| SetItem (key : string) (value : WatchProgress)
| GetItem (key : string)
| Upsert (r : Row)
| SelectSingle (user_id film_id : string)
| ConsoleError (msg : string)
| AlertShown (title : string)
| PlayAsync (clipIndex : nat)
| PauseAsync (clipIndex : nat).

(** [storage] is AsyncStorage (the values are the records that
    [JSON.stringify] writes and [JSON.parse] reads back); [table] is the
    remote table, one row per (user_id, film_id); [calls] is the log, oldest
    first.  [storage_fails n], [remote n] and [handle_fails n] give the fate
    of a storage call, a remote call or an awaited call on a video handle
    that is issued when the log has length [n]; [clock n] is the time read
    at that moment. *)
Record World := mkWorld {
  storage : gmap string WatchProgress;
  table : gmap (string * string) Row;
  calls : list call;
  storage_fails : nat → bool;
  remote : nat → remote_outcome;
  handle_fails : nat → bool;
  clock : nat → string             (* new Date().toISOString() *)
}.

Definition log_call (c : call) (w : World) : World :=
  mkWorld (storage w) (table w) (calls w ++ [c])
          (storage_fails w) (remote w) (handle_fails w) (clock w).

Definition set_storage (m : gmap string WatchProgress) (w : World) : World :=
  mkWorld m (table w) (calls w)
          (storage_fails w) (remote w) (handle_fails w) (clock w).

Definition set_table (t : gmap (string * string) Row) (w : World) : World :=
  mkWorld (storage w) t (calls w)
          (storage_fails w) (remote w) (handle_fails w) (clock w).

(** ** Computations: a state monad over the world with exceptions.
    An [async] function is a computation; [Returned] is a promise that
    resolves, [Thrown] one that rejects (or a synchronous [throw]). *)

Inductive outcome (A : Type) :=
| Returned (a : A)
| Thrown (e : string).
Arguments Returned {A} a.
Arguments Thrown {A} e.

Definition io (A : Type) : Type := World → outcome A * World.

#[global] Instance io_ret : MRet io := λ A a w, (Returned a, w).

#[global] Instance io_bind : MBind io := λ A B f m w,
  match m w with
  | (Returned a, w') => f a w'
  | (Thrown e, w') => (Thrown e, w')
  end.

(** [try { m } catch (error) { h error }] *)
Definition try_catch {A} (m : io A) (h : string → io A) : io A := λ w,
  match m w with
  | (Returned a, w') => (Returned a, w')
  | (Thrown e, w') => h e w'
  end.

Definition console_error (msg : string) : io unit := λ w,
  (Returned (), log_call (ConsoleError msg) w).

Definition get_now : io string := λ w,
  (Returned (clock w (length (calls w))), w).

Module AsyncStorage.

Definition setItem (key : string) (value : WatchProgress) : io unit := λ w,
  let w' := log_call (SetItem key value) w in
  if storage_fails w (length (calls w))
  then (Thrown "AsyncStorage.setItem", w')
  else (Returned (), set_storage (<[key := value]> (storage w)) w').

Definition getItem (key : string) : io (option WatchProgress) := λ w,
  let w' := log_call (GetItem key) w in
  if storage_fails w (length (calls w))
  then (Thrown "AsyncStorage.getItem", w')
  else (Returned (storage w !! key), w').

End AsyncStorage.

Module Supabase.

(** Modelled from the spec: the schema of the [watch_progress] table is
    not among the sources; the progress store of the spec keeps one record
    per (userId, filmId), so an upsert that goes through replaces the row
    of that pair.  [supabase.from('watch_progress').upsert(row)] resolves
    to [{ error }]. *)
Definition upsert (r : Row) : io (option string) := λ w,
  let w' := log_call (Upsert r) w in
  match remote w (length (calls w)) with
  | RemoteOk =>
      (Returned None,
       set_table (<[(row_user_id r, row_film_id r) := r]> (table w)) w')
  | RemoteError => (Returned (Some "upsert failed"), w')
  | RemoteThrows => (Thrown "network request failed", w')
  end.

(** [.select('*').eq('user_id', u).eq('film_id', f).single()]: the
    resolved value is [{ data, error }]; [single()] reports the absence of
    a row as an error. *)
Definition select_single (u f : string) : io (option Row * option string) :=
  λ w,
  let w' := log_call (SelectSingle u f) w in
  match remote w (length (calls w)) with
  | RemoteOk =>
      match table w !! (u, f) with
      | Some r => (Returned (Some r, None), w')
      | None => (Returned (None, Some "no rows"), w')
      end
  | RemoteError => (Returned (None, Some "select failed"), w')
  | RemoteThrows => (Thrown "network request failed", w')
  end.

End Supabase.

(** ** Rows of the content store, as the select lists of [getAllFilms] and
    [getFilm] return them (clipsService.ts, lines 139-153 and 206-220);
    a column that is [null] is [None]. *)

Record RawClip := mkRawClip {
  raw_clip_id : string;
  raw_clip_title : option string;
  hls_url : option string;
  duration_sec : option Q;
  idx : option Z;
  is_free_preview : option bool
}.

Record RawFilm := mkRawFilm {
  raw_film_id : string;
  raw_film_title : option string;
  raw_film_description : option string;
  cover_url : option string;
  raw_film_clips : option (list RawClip)
}.

(** The [Film] of the service in full: [Film] above has the fields the
    feed and the access check read, this record adds the others. *)
Record FilmData := mkFilmData {
  film_of : Film;
  description : string;
  coverImageUrl : string;
  film_isPremium : bool;
  film_currentClipIndex : Z;
  film_lastWatchedAt : string
}.

(** JavaScript truthiness of a string: every string but the empty one. *)
Definition truthy (s : string) : bool :=
  match s with
  | EmptyString => false
  | String _ _ => true
  end.

(** ** ClipsService (src/lib/clipsService.ts) *)

Module ClipsService.

Definition STORAGE_KEY : string := "tinky_watch_progress".

(** [`${ClipsService.STORAGE_KEY}_${filmId}`] *)
Definition storage_key (filmId : string) : string :=
  STORAGE_KEY +:+ "_" +:+ filmId.

(** [return stored ? JSON.parse(stored) : null]: the cache holds records,
    so what is stored is what is parsed. *)
Definition getLocalProgress (filmId : string) : io (option WatchProgress) :=
  try_catch
    (stored ← AsyncStorage.getItem (storage_key filmId);
     mret stored)
    (λ _, console_error "Error loading local progress:";; mret None).

Definition saveLocalProgress (progress : WatchProgress) : io unit :=
  try_catch
    (AsyncStorage.setItem (storage_key (filmId progress)) progress)
    (λ _, console_error "Error saving local progress:").

Definition syncProgressToCloud (progress : WatchProgress) : io unit :=
  try_catch
    (stamp ← get_now;
     error ← Supabase.upsert
       {| row_user_id := userId progress;
          row_film_id := filmId progress;
          current_clip_index := currentClipIndex progress;
          playback_time := currentTime progress;
          last_watched_at := lastWatchedAt progress;
          updated_at := stamp |};
     match error with
     | Some _ => console_error "Error syncing progress to cloud:"
     | None => mret ()
     end)
    (λ _, console_error "Error syncing progress to cloud:").

Definition getCloudProgress (userId filmId : string)
  : io (option WatchProgress) :=
  try_catch
    (res ← Supabase.select_single userId filmId;
     match res with
     | (Some data, None) =>
         mret (Some {| filmId := row_film_id data;
                       currentClipIndex := current_clip_index data;
                       currentTime := playback_time data;
                       lastWatchedAt := last_watched_at data;
                       userId := row_user_id data |})
     | _ => mret None               (* if (error || !data) return null *)
     end)
    (λ _, console_error "Error getting cloud progress:";; mret None).

(** [userId: string | null]; [if (userId)] holds for a non-empty string. *)
Definition getWatchProgress (userId : option string) (filmId : string)
  : io (option WatchProgress) :=
  match userId with
  | Some u =>
      if truthy u then
        cloudProgress ← getCloudProgress u filmId;
        match cloudProgress with
        | Some p => mret (Some p)
        | None => getLocalProgress filmId
        end
      else getLocalProgress filmId
  | None => getLocalProgress filmId
  end.

Definition saveWatchProgress (progress : WatchProgress) : io unit :=
  saveLocalProgress progress;;
  if truthy (userId progress) then syncProgressToCloud progress
  else mret ().

(** [film.clips[clipIndex]]: [undefined] for an index that is negative or
    past the end. *)
Definition clip_at (film : Film) (clipIndex : Z) : option Clip :=
  if clipIndex <? 0 then None else clips film !! Z.to_nat clipIndex.

Definition canAccessClip (film : Film) (clipIndex : Z)
           (userHasPremium : bool) : bool :=
  match clip_at film clipIndex with
  | None => false                                (* if (!clip) *)
  | Some clip =>
      match isPremium clip with
      | None | Some false => true                (* if (!clip.isPremium) *)
      | Some true =>
          if userHasPremium then true
          else clipIndex <? freeClipLimit film
      end
  end.

Definition getNextClipIndex (currentIndex totalClips : Z) : Z :=
  Z.min (currentIndex + 1) (totalClips - 1).

Definition getPreviousClipIndex (currentIndex : Z) : Z :=
  Z.max (currentIndex - 1) 0.

(** [progress?.currentClipIndex || 0] and [film.clips[clipIndex] || null] *)
Definition getCurrentClip (film : Film) (progress : option WatchProgress)
  : option Clip :=
  clip_at film (match progress with
                | Some p => currentClipIndex p
                | None => 0
                end).

Definition canGoToNextClip (film : Film) (currentClipIndex : Z) : bool :=
  currentClipIndex <? Z.of_nat (length (clips film)) - 1.

Definition canGoToPreviousClip (currentClipIndex : Z) : bool :=
  0 <? currentClipIndex.

(** [s || d] on a string column *)
Definition or_default (o : option string) (d : string) : string :=
  match o with
  | Some s => if truthy s then s else d
  | None => d
  end.

(** [clip.duration_sec || 0] *)
Definition number_or_zero (o : option Q) : Q :=
  match o with
  | Some q => if Qeq_bool q 0 then 0%Q else q
  | None => 0%Q
  end.

(** The number [idx] stands for in [a.idx - b.idx] and in [clip.idx || 0]:
    [null] counts as 0. *)
Definition idx_number (c : RawClip) : Z := default 0 (idx c).

(** [clips.sort((a, b) => a.idx - b.idx)]: the sort is stable, a clip is
    put before the first clip that does not compare below it. *)
Fixpoint insert_by_idx (c : RawClip) (l : list RawClip) : list RawClip :=
  match l with
  | [] => [c]
  | d :: rest =>
      if idx_number c - idx_number d <=? 0 then c :: d :: rest
      else d :: insert_by_idx c rest
  end.

Fixpoint sort_by_idx (l : list RawClip) : list RawClip :=
  match l with
  | [] => []
  | c :: rest => insert_by_idx c (sort_by_idx rest)
  end.

Definition clip_of_row (clip : RawClip) : Clip :=
  {| clip_id := raw_clip_id clip;
     clip_title := or_default (raw_clip_title clip) "Untitled Clip";
     hlsUrl := or_default (hls_url clip) "";
     clip_duration := number_or_zero (duration_sec clip);
     order := idx_number clip;
     isPremium := Some (negb (default false (is_free_preview clip))) |}.

(** [clip.is_free_preview === true] *)
Definition is_free_row (clip : RawClip) : bool :=
  match is_free_preview clip with
  | Some true => true
  | _ => false
  end.

(** [film[key]] on a row: the row has the columns of the select list and
    no other property. *)
Definition raw_film_get (film : RawFilm) (key : string) : option string :=
  if String.eqb key "id" then Some (raw_film_id film)
  else if String.eqb key "title" then raw_film_title film
  else if String.eqb key "description" then raw_film_description film
  else if String.eqb key "cover_url" then cover_url film
  else None.

(** The object that both [getAllFilms] and [getFilm] build from a row; the
    two differ in the key under which they read the cover. *)
Definition film_of_row (cover_key : string) (stamp : string) (film : RawFilm)
  : FilmData :=
  let clips := sort_by_idx (default [] (raw_film_clips film)) in
  let sortedClips := map clip_of_row clips in
  let freeClipCount := length (List.filter is_free_row clips) in
  {| film_of :=
       {| film_id := raw_film_id film;
          film_title := or_default (raw_film_title film) "Untitled Film";
          clips := sortedClips;
          totalClips := Z.of_nat (length clips);
          freeClipLimit := Z.of_nat freeClipCount |};
     description := or_default (raw_film_description film) "";
     coverImageUrl := or_default (raw_film_get film cover_key) "";
     film_isPremium := false;
     film_currentClipIndex := 0;
     film_lastWatchedAt := stamp |}.

(** [console.log]: the call log of the world keeps errors only. *)
Definition console_log (msg : string) : io unit := mret ().

Section Content.

(** The two requests to the [films] table, each resolving to
    [{ data, error }]: all published films, and the published film of a
    given id ([.single()]). *)
Variable films_query : io (option (list RawFilm) * option string).
Variable film_query : string → io (option RawFilm * option string).

Definition getAllFilms : io (list FilmData) :=
  try_catch
    (res ← films_query;
     match res with
     | (_, Some _) => console_error "Error fetching films:";; mret []
     | (None, None) | (Some [], None) =>
         console_log "No published films found";; mret []
     | (Some films, None) =>
         stamp ← get_now;
         mret (map (film_of_row "cover-url" stamp) films)
     end)
    (λ _, console_error "Error fetching films:";; mret []).

Definition getFilm (filmId : string) : io (option FilmData) :=
  try_catch
    (res ← film_query filmId;
     match res with
     | (Some data, None) =>
         stamp ← get_now;
         mret (Some (film_of_row "cover_url" stamp data))
     | _ => console_error "Error fetching film:";; mret None
     end)
    (λ _, console_error "Error fetching film:";; mret None).

End Content.

End ClipsService.

(** ** The watch screen (src/app/tabs/watch.tsx) *)

Record WatchState := mkWatch {
  film : option Film;
  watch_clipIndex : Z;                       (* currentClipIndex *)
  watchProgress : option WatchProgress;
  user : option string                       (* user?.id *)
}.

Module Watch.

Definition alert (title : string) : io unit := λ w,
  (Returned (), log_call (AlertShown title) w).

(** [user?.id || ''] *)
Definition user_id_or_empty (u : option string) : string :=
  match u with
  | Some id => if truthy id then id else ""
  | None => ""
  end.

Definition setWatchProgress (p : option WatchProgress) (s : WatchState) :=
  mkWatch (film s) (watch_clipIndex s) p (user s).

Definition setCurrentClipIndex (i : Z) (s : WatchState) :=
  mkWatch (film s) i (watchProgress s) (user s).

Definition saveProgress (clipIndex : Z) (currentTime : Q) (s : WatchState)
  : io WatchState :=
  match film s with
  | None => mret s                                     (* if (!film) return *)
  | Some f =>
      stamp ← get_now;
      let progress :=
        {| filmId := film_id f;
           currentClipIndex := clipIndex;
           currentTime := currentTime;
           lastWatchedAt := stamp;
           userId := user_id_or_empty (user s) |} in
      try_catch
        (ClipsService.saveWatchProgress progress;;
         mret (setWatchProgress (Some progress) s))
        (λ _, console_error "Error saving progress:";; mret s)
  end.

(** The premium status passed to the access check is the constant
    [false] of the source. *)
Definition handleClipChange (clipIndex : Z) (s : WatchState)
  : io WatchState :=
  match film s with
  | None => mret s
  | Some f =>
      if ClipsService.canAccessClip f clipIndex false
      then saveProgress clipIndex 0%Q (setCurrentClipIndex clipIndex s)
      else alert "Premium Content";; mret s
  end.

(** [Math.floor(currentTime) % 10 === 0] *)
Definition on_save_boundary (currentTime : Q) : bool :=
  Z.rem (Qfloor currentTime) 10 =? 0.

Definition handleProgress (clipIndex : Z) (currentTime duration : Q)
           (s : WatchState) : io WatchState :=
  if on_save_boundary currentTime
  then saveProgress clipIndex currentTime s
  else mret s.

(** The screen state with its [loading] flag. *)
Record WatchScreen := mkScreen {
  screen_state : WatchState;
  loading : bool
}.

Definition setLoading (b : bool) (s : WatchScreen) : WatchScreen :=
  mkScreen (screen_state s) b.

(** A string that may be missing, read as a condition: [filmId] in
    [if (!selectedFilmId)], and [user?.id || null]. *)
Definition present (o : option string) : option string :=
  match o with
  | Some id => if truthy id then Some id else None
  | None => None
  end.

Section Load.

Variable films_query : io (option (list RawFilm) * option string).
Variable film_query : string → io (option RawFilm * option string).

(** The body of the [try]; [filmId] is the route parameter.  It either
    ends early, after an alert, or sets film, clip index and progress. *)
Definition load_body (filmId : option string) (s : WatchState)
  : io WatchState :=
  selected ←
    match present filmId with
    | Some id => mret (Some id)
    | None =>
        allFilms ← ClipsService.getAllFilms films_query;
        match allFilms with
        | [] => alert "No Films";; mret None
        | first :: _ => mret (Some (film_id (film_of first)))
        end
    end;
  match selected with
  | None => mret s
  | Some selectedFilmId =>
      filmData ← ClipsService.getFilm film_query selectedFilmId;
      match filmData with
      | None => alert "Error";; mret s
      | Some fd =>
          progress ← ClipsService.getWatchProgress (present (user s))
                                                   selectedFilmId;
          let clipIndex :=
            match progress with
            | Some p => currentClipIndex p
            | None => 0
            end in
          mret (mkWatch (Some (film_of fd)) clipIndex progress (user s))
      end
  end.

(** [try { setLoading(true); ... } catch { ... } finally
    { setLoading(false) }] *)
Definition loadFilmAndProgress (filmId : option string) (s : WatchScreen)
  : io WatchScreen :=
  s' ← try_catch
         (st ← load_body filmId (screen_state s); mret (mkScreen st true))
         (λ _, console_error "Error loading film:";;
               alert "Error";; mret (setLoading true s));
  mret (setLoading false s').

End Load.

End Watch.

(** ** The vertical feed (src/components/VerticalVideoPlayer.tsx) *)

(** The state of one [VideoItem]; [videoRef] says whether
    [videoRef.current] is set. *)
Record VideoItem := mkItem {
  isPlaying : bool;
  showControls : bool;
  item_currentTime : Q;
  item_duration : Q;
  isLoaded : bool;
  videoRef : bool
}.

Inductive AVPlaybackStatus :=
| StatusUnloaded
| StatusLoaded (positionMillis : Z) (durationMillis : option Z)
               (status_isPlaying didJustFinish : bool).

Record PlayerState := mkPlayer {
  currentIndex : Z;
  items : list VideoItem
}.

Module Player.

Definition setIsPlaying (b : bool) (it : VideoItem) : VideoItem :=
  mkItem b (showControls it) (item_currentTime it) (item_duration it)
         (isLoaded it) (videoRef it).

Definition setShowControls (b : bool) (it : VideoItem) : VideoItem :=
  mkItem (isPlaying it) b (item_currentTime it) (item_duration it)
         (isLoaded it) (videoRef it).

Definition setIsLoaded (b : bool) (it : VideoItem) : VideoItem :=
  mkItem (isPlaying it) (showControls it) (item_currentTime it)
         (item_duration it) b (videoRef it).

Definition setTimes (t d : Q) (it : VideoItem) : VideoItem :=
  mkItem (isPlaying it) (showControls it) t d (isLoaded it) (videoRef it).

(** A call on the video handle whose promise is not awaited: it is
    issued, and its failure is seen by nobody. *)
Definition pauseAsync (i : nat) : io unit := λ w,
  (Returned (), log_call (PauseAsync i) w).

Definition playAsync (i : nat) : io unit := λ w,
  (Returned (), log_call (PlayAsync i) w).

(** The same calls awaited, as [togglePlayPause] does: a handle that
    fails makes the [await] throw. *)
Definition await_handle (c : call) : io unit := λ w,
  let w' := log_call c w in
  if handle_fails w (length (calls w))
  then (Thrown "player handle", w')
  else (Returned (), w').

(** [isVisible={index === currentIndex}] *)
Definition isVisible (current : Z) (i : nat) : bool :=
  Z.of_nat i =? current.

(** The effect on [isVisible]: pause the video that is no longer
    visible. *)
Definition visibilityEffect (i : nat) (visible : bool) (it : VideoItem)
  : io VideoItem :=
  if negb visible && videoRef it
  then pauseAsync i;; mret (setIsPlaying false it)
  else mret it.

(** After [currentIndex] went from [old] to [new], the effect runs in
    every item whose [isVisible] changed, in list order; [i] is the index
    of the first item of [its]. *)
Fixpoint run_effects (old new : Z) (i : nat) (its : list VideoItem)
  : io (list VideoItem) :=
  match its with
  | [] => mret []
  | it :: rest =>
      it' ← (if Bool.eqb (isVisible old i) (isVisible new i)
             then mret it
             else visibilityEffect i (isVisible new i) it);
      rest' ← run_effects old new (S i) rest;
      mret (it' :: rest')
  end.

Definition togglePlayPause (i : nat) (it : VideoItem) : io VideoItem :=
  if negb (videoRef it) || negb (isLoaded it) then mret it
  else
    try_catch
      (it' ← (if isPlaying it
              then await_handle (PauseAsync i);;
                   mret (setIsPlaying false it)
              else await_handle (PlayAsync i);;
                   mret (setIsPlaying true it));
       mret (setShowControls true it'))
      (λ _, console_error "Error toggling play/pause:";; mret it).

Section Feed.

(** The props [onClipChange] and [onProgress]; [P] is the state of the
    parent that owns them.  Both are [async] in the parent and are not
    awaited here. *)
Context {P : Type}.
Variable onClipChange : Z → P → io P.
Variable onProgress : Z → Q → Q → P → io P.

Definition not_awaited (m : P → io P) (p : P) : io P :=
  try_catch (m p) (λ _, mret p).

(** [handleProgress] of the feed: the index reported upward is
    [currentIndex], whichever item calls. *)
Definition handleProgress (s : PlayerState) (currentTime duration : Q)
  : P → io P :=
  not_awaited (onProgress (currentIndex s) currentTime duration).

Definition handlePlaybackStatusUpdate (s : PlayerState) (i : nat)
           (status : AVPlaybackStatus) (it : VideoItem) (p : P)
  : io (VideoItem * P) :=
  match status with
  | StatusLoaded positionMillis durationMillis playing finished =>
      let currentTimeSeconds := (inject_Z positionMillis / 1000)%Q in
      let durationSeconds :=
        match durationMillis with
        | Some d => if d =? 0 then 0%Q else (inject_Z d / 1000)%Q
        | None => 0%Q
        end in
      let it1 :=
        setIsPlaying playing
          (setTimes currentTimeSeconds durationSeconds
             (setIsLoaded true it)) in
      p' ← handleProgress s currentTimeSeconds durationSeconds p;
      (if negb playing && isVisible (currentIndex s) i && negb finished
          && Qeq_bool currentTimeSeconds 0 && videoRef it
       then playAsync i
       else mret ());;
      mret (if finished
            then setShowControls true (setIsPlaying false it1)
            else it1,
            p')
  | StatusUnloaded => mret (setIsLoaded false it, p)
  end.

Definition onViewableItemsChanged (viewableItems : list Z)
           (s : PlayerState) (p : P) : io (PlayerState * P) :=
  match viewableItems with
  | [] => mret (s, p)
  | newIndex :: _ =>
      p' ← not_awaited (onClipChange newIndex) p;
      its ← run_effects (currentIndex s) newIndex 0 (items s);
      mret (mkPlayer newIndex its, p')
  end.

End Feed.

End Player.

(** ** The screen as a whole: [Watch] renders the feed with
    [onClipChange={handleClipChange}] and [onProgress={handleProgress}]. *)

Record App := mkApp {
  watch : WatchState;
  player : PlayerState
}.

Inductive event :=
| ViewableItemsChanged (viewableItems : list Z)
| PlaybackStatusUpdate (i : nat) (status : AVPlaybackStatus)
| PressPlayPause (i : nat).

Module Screen.

Definition onViewableItemsChanged :=
  Player.onViewableItemsChanged Watch.handleClipChange.

Definition handlePlaybackStatusUpdate :=
  Player.handlePlaybackStatusUpdate Watch.handleProgress.

Definition step (e : event) (a : App) : io App :=
  match e with
  | ViewableItemsChanged viewableItems =>
      r ← onViewableItemsChanged viewableItems (player a) (watch a);
      mret (mkApp r.2 r.1)
  | PlaybackStatusUpdate i status =>
      match items (player a) !! i with
      | None => mret a
      | Some it =>
          r ← handlePlaybackStatusUpdate (player a) i status it (watch a);
          mret (mkApp r.2
                  (mkPlayer (currentIndex (player a))
                            (<[i := r.1]> (items (player a)))))
      end
  | PressPlayPause i =>
      match items (player a) !! i with
      | None => mret a
      | Some it =>
          it' ← Player.togglePlayPause i it;
          mret (mkApp (watch a)
                  (mkPlayer (currentIndex (player a))
                            (<[i := it']> (items (player a)))))
      end
  end.

Fixpoint run (es : list event) (a : App) : io App :=
  match es with
  | [] => mret a
  | e :: rest => a' ← step e a; run rest a'
  end.

(** The state after mount: every item unloaded and not playing, its video
    handle attached. *)
Definition mounted_item : VideoItem := mkItem false false 0%Q 0%Q false true.

Definition mount (f : Film) (u : option string) (clipIndex : Z) : App :=
  mkApp (mkWatch (Some f) clipIndex None u)
        (mkPlayer clipIndex (replicate (length (clips f)) mounted_item)).

End Screen.

(** A world in which nothing is stored and nothing fails. *)
Definition quiet_world : World :=
  mkWorld ∅ ∅ [] (λ _, false) (λ _, RemoteOk) (λ _, false)
          (λ _, "2025-01-01T00:00:00.000Z").

(** ** Observations on the call log and on streams of events *)

(** The records handed to the local cache, oldest first: one per persisted
    write, since [saveWatchProgress] is the only caller of [setItem]. *)
Definition persisted_writes (cs : list call) : list WatchProgress :=
  omap (λ c, match c with SetItem _ v => Some v | _ => None end) cs.

(** The cache keys written, oldest first. *)
Definition written_keys (cs : list call) : list string :=
  omap (λ c, match c with SetItem k _ => Some k | _ => None end) cs.

(** The rows sent to the remote table, oldest first. *)
Definition upserts (cs : list call) : list Row :=
  omap (λ c, match c with Upsert r => Some r | _ => None end) cs.

(** The clips that received a play command, oldest first. *)
Definition play_commands (cs : list call) : list nat :=
  omap (λ c, match c with PlayAsync i => Some i | _ => None end) cs.

Definition alerts (cs : list call) : list string :=
  omap (λ c, match c with AlertShown t => Some t | _ => None end) cs.

(** What a record says about the position: film, user, clip and time. *)
Definition position_of (p : WatchProgress) : string * string * Z * Q :=
  (filmId p, userId p, currentClipIndex p, currentTime p).

(** The persisted writes whose position lies in integer second [n]. *)
Definition writes_in_second (n : Z) (cs : list call) : list WatchProgress :=
  List.filter (λ p, Qfloor (currentTime p) =? n) (persisted_writes cs).

Definition progress_of_row (data : Row) : WatchProgress :=
  {| filmId := row_film_id data;
     currentClipIndex := current_clip_index data;
     currentTime := playback_time data;
     lastWatchedAt := last_watched_at data;
     userId := row_user_id data |}.

Definition row_of_progress (stamp : string) (p : WatchProgress) : Row :=
  {| row_user_id := userId p;
     row_film_id := filmId p;
     current_clip_index := currentClipIndex p;
     playback_time := currentTime p;
     last_watched_at := lastWatchedAt p;
     updated_at := stamp |}.

(** [if (userId)] on a [string | null]. *)
Definition authenticated (userId : option string) : option string :=
  match userId with
  | Some u => if truthy u then Some u else None
  | None => None
  end.

(** What the remote source yields for (u, f) to a request issued in [w]:
    the stored row, when the request goes through. *)
Definition remote_record (u f : string) (w : World) : option WatchProgress :=
  match remote w (length (calls w)) with
  | RemoteOk => progress_of_row <$> table w !! (u, f)
  | RemoteError | RemoteThrows => None
  end.

(** What the local cache yields for film [f] to a read issued in [w]. *)
Definition local_record (f : string) (w : World) : option WatchProgress :=
  if storage_fails w (length (calls w)) then None
  else storage w !! ClipsService.storage_key f.

(** The reporter fed with a stream of positions of the active clip. *)
Fixpoint report_ticks (clipIndex : Z) (duration : Q) (ticks : list Q)
         (s : WatchState) : io WatchState :=
  match ticks with
  | [] => mret s
  | t :: rest =>
      s' ← Watch.handleProgress clipIndex t duration s;
      report_ticks clipIndex duration rest s'
  end.

(** The feed fed with a sequence of visibility reports. *)
Fixpoint visibility_changes {P} (onClipChange : Z → P → io P)
         (reports : list (list Z)) (s : PlayerState) (p : P)
  : io (PlayerState * P) :=
  match reports with
  | [] => mret (s, p)
  | viewableItems :: rest =>
      r ← Player.onViewableItemsChanged onClipChange viewableItems s p;
      visibility_changes onClipChange rest r.1 r.2
  end.

(** The single-active invariant of the feed: a clip that plays is the
    active one, and its video handle is attached. *)
Definition only_active_plays (s : PlayerState) : Prop :=
  ∀ i it, items s !! i = Some it → isPlaying it = true →
          Z.of_nat i = currentIndex s ∧ videoRef it = true.

Definition playing_count (s : PlayerState) : nat :=
  length (List.filter isPlaying (items s)).

(** The invariant as a check that runs: item [i] either does not play or
    is the visible one with its handle attached. *)
Definition plays_legally (current : Z) (i : nat) (it : VideoItem) : bool :=
  negb (isPlaying it) || (Player.isVisible current i && videoRef it).

Fixpoint all_legal (current : Z) (i : nat) (its : list VideoItem) : bool :=
  match its with
  | [] => true
  | it :: rest => plays_legally current i it && all_legal current (S i) rest
  end.

Definition single_active (s : PlayerState) : bool :=
  all_legal (currentIndex s) 0 (items s).

(** What the visibility effects do when [currentIndex] goes from [old] to
    [new]: the effect pauses item [i] when the item was visible, no longer
    is, and has its video handle. *)
Definition effect_fires (old new : Z) (i : nat) (it : VideoItem) : bool :=
  Player.isVisible old i && negb (Player.isVisible new i) && videoRef it.

Fixpoint items_after_effects (old new : Z) (i : nat) (its : list VideoItem)
  : list VideoItem :=
  match its with
  | [] => []
  | it :: rest =>
      (if effect_fires old new i it then Player.setIsPlaying false it else it)
        :: items_after_effects old new (S i) rest
  end.

Fixpoint pauses_issued (old new : Z) (i : nat) (its : list VideoItem)
  : list call :=
  match its with
  | [] => []
  | it :: rest =>
      (if effect_fires old new i it then [PauseAsync i] else [])
        ++ pauses_issued old new (S i) rest
  end.

(** A clip the access check lets everybody see: [!clip.isPremium]. *)
Definition unrestricted (c : Clip) : bool :=
  match isPremium c with
  | Some true => false
  | _ => true
  end.

(** No free clip comes after a premium one. *)
Fixpoint free_first (l : list Clip) : bool :=
  match l with
  | [] => true
  | c :: rest =>
      match isPremium c with
      | Some true =>
          forallb (λ d, match isPremium d with Some true => true | _ => false
                        end) rest
      | _ => free_first rest
      end
  end.

(** An event that concerns the active clip: a press on its button, or a
    status that reports a clip as playing only when it is the visible one
    with its handle attached. *)
Definition on_active_clip (e : event) (s : PlayerState) : bool :=
  match e with
  | ViewableItemsChanged _ => true
  | PlaybackStatusUpdate i (StatusLoaded _ _ true false) =>
      match items s !! i with
      | Some it => Player.isVisible (currentIndex s) i && videoRef it
      | None => true
      end
  | PlaybackStatusUpdate _ _ => true
  | PressPlayPause i => Player.isVisible (currentIndex s) i
  end.

(** Every event of a run concerns the clip that is active when the event
    arrives. *)
Fixpoint events_on_active (es : list event) (a : App) (w : World) : bool :=
  match es with
  | [] => true
  | e :: rest =>
      on_active_clip e (player a)
      && match Screen.step e a w with
         | (Returned a', w') => events_on_active rest a' w'
         | (Thrown _, _) => false
         end
  end.

(** The command [togglePlayPause] sends for an item. *)
Definition toggle_command (i : nat) (it : VideoItem) : call :=
  if isPlaying it then PauseAsync i else PlayAsync i.

(** A content store that answers every request for film [id] with [row]
    and touches nothing. *)
Definition serves (film_query : string → io (option RawFilm * option string))
           (id : string) (row : RawFilm) : Prop :=
  ∀ w, film_query id w = (Returned (Some row, None), w).

(** ** Test data *)

Definition free_clip (id : string) (i : Z) : Clip :=
  mkClip id "Untitled Clip" "https://cdn/clip.m3u8" 60%Q i (Some false).

Definition premium_clip (id : string) (i : Z) : Clip :=
  mkClip id "Untitled Clip" "https://cdn/clip.m3u8" 60%Q i (Some true).

(** Five clips, the first two free, [freeClipLimit = 2]. *)
Definition film5 : Film :=
  mkFilm "film-1" "Untitled Film"
    [free_clip "c0" 0; free_clip "c1" 1;
     premium_clip "c2" 2; premium_clip "c3" 3; premium_clip "c4" 4]
    5 2.

(** Three status events a second for thirty seconds: positions k/3 s,
    k = 0 .. 90, in whole milliseconds. *)
Definition positions_3_per_second : list Z :=
  map (λ k, Z.of_nat k * 1000 / 3) (seq 0 91).

Definition ticks_3_per_second : list event :=
  map (λ ms, PlaybackStatusUpdate 0 (StatusLoaded ms (Some 60000) true false))
      positions_3_per_second.

(** A row of the [films] table with three clips that arrive out of order:
    clip b (idx 2, premium), clip c (idx null, free preview), clip a
    (idx 1, free preview). *)
Definition raw_film3 : RawFilm :=
  mkRawFilm "film-3" (Some "Three") None (Some "https://cdn/cover.jpg")
    (Some [mkRawClip "b" (Some "B") (Some "https://cdn/b.m3u8") (Some 30%Q)
                     (Some 2) (Some false);
           mkRawClip "c" None None None None (Some true);
           mkRawClip "a" (Some "A") (Some "https://cdn/a.m3u8") (Some 20%Q)
                     (Some 1) (Some true)]).

Definition progress_of (u f : string) (i : Z) (t : Q) : WatchProgress :=
  mkProgress f i t "2025-01-01T00:00:00.000Z" u.

(** * Properties *)

(** Unfolding of the monad, for proofs that run a handler step by step. *)
Ltac io_unfold :=
  unfold mbind, io_bind, mret, io_ret, try_catch, console_error, get_now,
    AsyncStorage.setItem, AsyncStorage.getItem, Supabase.upsert,
    Supabase.select_single, Watch.alert in *.

(** ** Access policy and index helpers *)

Lemma clip_at_None (film : Film) (clipIndex : Z) :
  ClipsService.clip_at film clipIndex = None ↔
  clipIndex < 0 ∨ Z.of_nat (length (clips film)) ≤ clipIndex.
Proof.
  unfold ClipsService.clip_at.
  destruct (Z.ltb_spec clipIndex 0) as [Hneg | Hpos].
  - split; [intros _; by left | done].
  - rewrite lookup_ge_None. lia.
Qed.

(** C5. [canAccessClip] is [false] for an index out of bounds, [true] for a
    clip that is not restricted, [true] for a restricted clip when the
    viewer has premium, and for a restricted clip and a viewer without
    premium it is [true] exactly when the index is below
    [film.freeClipLimit]; on the five-clip film with two free clips a
    viewer without premium gets [true, true, false, false, false]. *)
Theorem canAccessClip_policy (film : Film) (clipIndex : Z) (premium : bool) :
  ((clipIndex < 0 ∨ Z.of_nat (length (clips film)) ≤ clipIndex) →
     ClipsService.canAccessClip film clipIndex premium = false)
  ∧ (∀ clip, ClipsService.clip_at film clipIndex = Some clip →
       isPremium clip ≠ Some true →
       ClipsService.canAccessClip film clipIndex premium = true)
  ∧ (∀ clip, ClipsService.clip_at film clipIndex = Some clip →
       isPremium clip = Some true → premium = true →
       ClipsService.canAccessClip film clipIndex premium = true)
  ∧ (∀ clip, ClipsService.clip_at film clipIndex = Some clip →
       isPremium clip = Some true → premium = false →
       (ClipsService.canAccessClip film clipIndex premium = true ↔
        clipIndex < freeClipLimit film))
  ∧ map (λ i, ClipsService.canAccessClip film5 i false) [0; 1; 2; 3; 4]
    = [true; true; false; false; false].
Proof.
  unfold ClipsService.canAccessClip.
  split; [| split; [| split; [| split]]].
  - intros Hout. apply clip_at_None in Hout. by rewrite Hout.
  - intros clip -> Hfree. destruct (isPremium clip) as [[|]|]; congruence.
  - by intros clip -> -> ->.
  - intros clip -> -> ->. apply Z.ltb_lt.
  - reflexivity.
Qed.

(** C9, as the claim states it, fails on the empty film: the next index
    after 0 of 0 clips is -1. *)
Lemma getNextClipIndex_empty_film_negative :
  ClipsService.getNextClipIndex 0 0 = -1
  ∧ ¬ (0 ≤ ClipsService.getNextClipIndex 0 0).
Proof. split; [reflexivity | vm_compute; congruence]. Qed.

(** C9 (amended). For every current index and total, [getNextClipIndex]
    is [min (current + 1) (total - 1)], which never exceeds the last index,
    and [getPreviousClipIndex] is [max (current - 1) 0], which is never
    negative; both clamp at their boundary.  For a film with at least one
    clip and a non-negative current index the next index is a valid
    index. *)
Theorem clip_index_helpers (current total : Z) :
  ClipsService.getNextClipIndex current total
    = Z.min (current + 1) (total - 1)
  ∧ ClipsService.getPreviousClipIndex current = Z.max (current - 1) 0
  ∧ ClipsService.getNextClipIndex current total ≤ total - 1
  ∧ 0 ≤ ClipsService.getPreviousClipIndex current
  ∧ ClipsService.getNextClipIndex (total - 1) total = total - 1
  ∧ ClipsService.getPreviousClipIndex 0 = 0
  ∧ (0 ≤ current → 1 ≤ total →
     0 ≤ ClipsService.getNextClipIndex current total < total).
Proof.
  unfold ClipsService.getNextClipIndex, ClipsService.getPreviousClipIndex.
  split; [reflexivity |]. split; [reflexivity |].
  split; [lia |]. split; [lia |]. split; [lia |]. split; [lia |].
  intros Hcurrent Htotal. lia.
Qed.

Lemma clip_index_helpers_witness :
  0 ≤ 4 ∧ 1 ≤ 5 ∧ 0 ≤ ClipsService.getNextClipIndex 4 5 < 5.
Proof.
  split; [lia |]. split; [lia |].
  destruct (clip_index_helpers 4 5) as (_ & _ & _ & _ & _ & _ & Hvalid).
  apply Hvalid; lia.
Defined.

(** ** The local cache key *)

Lemma storage_key_inj (f g : string) :
  ClipsService.storage_key f = ClipsService.storage_key g ↔ f = g.
Proof.
  split; [| by intros ->].
  unfold ClipsService.storage_key, ClipsService.STORAGE_KEY. cbn.
  intros H. by simplify_eq.
Qed.

Lemma written_keys_app (cs ds : list call) :
  written_keys (cs ++ ds) = written_keys cs ++ written_keys ds.
Proof. apply omap_app. Qed.

(** C6, as the claim states it, fails: the record of a signed-in user and
    the record of the anonymous user of the same film are written under the
    same key, and the second write replaces the first. *)
Lemma local_key_shared_between_users :
  let alice := progress_of "alice" "film-1" 3 12%Q in
  let anon := progress_of "" "film-1" 0 0%Q in
  let w1 := (ClipsService.saveLocalProgress alice quiet_world).2 in
  let w2 := (ClipsService.saveLocalProgress anon w1).2 in
  userId alice ≠ userId anon
  ∧ written_keys (calls w2)
    = ["tinky_watch_progress_film-1"; "tinky_watch_progress_film-1"]
  ∧ storage w1 !! "tinky_watch_progress_film-1" = Some alice
  ∧ storage w2 !! "tinky_watch_progress_film-1" = Some anon
  ∧ size (storage w2) = 1%nat.
Proof. repeat split; vm_compute; congruence. Qed.

(** C6 (amended). The local cache key is a function of the film id alone:
    [saveLocalProgress] writes under [tinky_watch_progress_<filmId>]
    whoever the user is, [getLocalProgress] reads that key, and two records
    share a key exactly when they are of the same film. *)
Theorem local_key_by_film (p q : WatchProgress) (w : World) :
  written_keys (calls (ClipsService.saveLocalProgress p w).2)
    = written_keys (calls w) ++ [ClipsService.storage_key (filmId p)]
  ∧ (∃ rest, calls (ClipsService.getLocalProgress (filmId p) w).2
       = calls w ++ GetItem (ClipsService.storage_key (filmId p)) :: rest)
  ∧ ClipsService.storage_key (filmId p)
    = "tinky_watch_progress_" +:+ filmId p
  ∧ (ClipsService.storage_key (filmId p) = ClipsService.storage_key (filmId q)
     ↔ filmId p = filmId q).
Proof.
  repeat split.
  - unfold ClipsService.saveLocalProgress. io_unfold.
    destruct (storage_fails w (length (calls w))); cbn;
      rewrite ?written_keys_app, <- ?app_assoc; cbn; by rewrite ?app_nil_r.
  - unfold ClipsService.getLocalProgress. io_unfold.
    destruct (storage_fails w (length (calls w))); cbn.
    + exists [ConsoleError "Error loading local progress:"].
      by rewrite <- app_assoc.
    + by exists [].
  - apply storage_key_inj.
  - by intros ->.
Qed.

(** ** The write path *)

Lemma saveLocalProgress_runs (p : WatchProgress) (w : World) :
  ClipsService.saveLocalProgress p w
  = (Returned (),
     if storage_fails w (length (calls w))
     then log_call (ConsoleError "Error saving local progress:")
            (log_call (SetItem (ClipsService.storage_key (filmId p)) p) w)
     else set_storage (<[ClipsService.storage_key (filmId p) := p]> (storage w))
            (log_call (SetItem (ClipsService.storage_key (filmId p)) p) w)).
Proof.
  unfold ClipsService.saveLocalProgress. io_unfold.
  by destruct (storage_fails w (length (calls w))).
Qed.

Lemma syncProgressToCloud_runs (p : WatchProgress) (w : World) :
  ClipsService.syncProgressToCloud p w
  = (Returned (),
     let r := row_of_progress (clock w (length (calls w))) p in
     match remote w (length (calls w)) with
     | RemoteOk =>
         set_table (<[(userId p, filmId p) := r]> (table w))
                   (log_call (Upsert r) w)
     | RemoteError | RemoteThrows =>
         log_call (ConsoleError "Error syncing progress to cloud:")
                  (log_call (Upsert r) w)
     end).
Proof.
  unfold ClipsService.syncProgressToCloud. io_unfold. cbn.
  by destruct (remote w (length (calls w))).
Qed.

Lemma saveWatchProgress_runs (p : WatchProgress) (w : World) :
  ClipsService.saveWatchProgress p w
  = (Returned (),
     let w1 := (ClipsService.saveLocalProgress p w).2 in
     if truthy (userId p) then (ClipsService.syncProgressToCloud p w1).2
     else w1).
Proof.
  unfold ClipsService.saveWatchProgress, mbind, io_bind.
  rewrite saveLocalProgress_runs. cbn [fst snd].
  destruct (truthy (userId p)); [by rewrite syncProgressToCloud_runs | done].
Qed.

(** C7. [saveWatchProgress] first hands the record to the local cache;
    after that, and only for a non-empty [userId], it sends one upsert of
    the row of (userId, filmId); a remote failure is logged to the console
    and nothing else happens: the operation resolves, the cache keeps what
    the local write left there, the table is unchanged and no call is
    issued again. *)
Theorem saveWatchProgress_write_path (p : WatchProgress) (w : World) :
  let key := ClipsService.storage_key (filmId p) in
  let w1 := (ClipsService.saveLocalProgress p w).2 in
  let row := row_of_progress (clock w (length (calls w1))) p in
  let w' := (ClipsService.saveWatchProgress p w).2 in
  (ClipsService.saveWatchProgress p w).1 = Returned ()
  ∧ calls w1
    = calls w ++ SetItem key p ::
        (if storage_fails w (length (calls w))
         then [ConsoleError "Error saving local progress:"] else [])
  ∧ storage w1
    = (if storage_fails w (length (calls w)) then storage w
       else <[key := p]> (storage w))
  ∧ calls w'
    = calls w1 ++
        (if truthy (userId p)
         then Upsert row ::
                match remote w (length (calls w1)) with
                | RemoteOk => []
                | _ => [ConsoleError "Error syncing progress to cloud:"]
                end
         else [])
  ∧ storage w' = storage w1
  ∧ table w'
    = (if truthy (userId p)
       then match remote w (length (calls w1)) with
            | RemoteOk => <[(userId p, filmId p) := row]> (table w)
            | _ => table w
            end
       else table w)
  ∧ (row_user_id row, row_film_id row) = (userId p, filmId p).
Proof.
  cbn zeta. rewrite saveWatchProgress_runs. cbn [fst snd].
  rewrite saveLocalProgress_runs. cbn [fst snd].
  destruct (truthy (userId p)).
  - rewrite syncProgressToCloud_runs. cbn [fst snd].
    destruct (storage_fails w (length (calls w))); cbn;
      match goal with |- context [remote w ?n] => destruct (remote w n) end;
      cbn; rewrite <- ?app_assoc; cbn; by rewrite ?app_nil_r.
  - destruct (storage_fails w (length (calls w))); cbn;
      rewrite <- ?app_assoc; cbn; by rewrite ?app_nil_r.
Qed.

(** C10. [saveWatchProgress] resolves whatever the collaborators do: a
    failing local write and a failing upsert are both caught inside the
    service, so the value the caller gets back is the same in every world. *)
Theorem saveWatchProgress_always_resolves (p : WatchProgress) (w w0 : World) :
  (ClipsService.saveLocalProgress p w).1 = Returned ()
  ∧ (ClipsService.syncProgressToCloud p w).1 = Returned ()
  ∧ (ClipsService.saveWatchProgress p w).1 = Returned ()
  ∧ (ClipsService.saveWatchProgress p w).1
    = (ClipsService.saveWatchProgress p w0).1.
Proof.
  by rewrite saveLocalProgress_runs, syncProgressToCloud_runs,
    !saveWatchProgress_runs.
Qed.

(** ** The read path *)

Lemma getLocalProgress_runs (f : string) (w : World) :
  ClipsService.getLocalProgress f w
  = (Returned (local_record f w),
     if storage_fails w (length (calls w))
     then log_call (ConsoleError "Error loading local progress:")
            (log_call (GetItem (ClipsService.storage_key f)) w)
     else log_call (GetItem (ClipsService.storage_key f)) w).
Proof.
  unfold ClipsService.getLocalProgress, local_record. io_unfold.
  by destruct (storage_fails w (length (calls w))).
Qed.

Lemma getCloudProgress_runs (u f : string) (w : World) :
  ClipsService.getCloudProgress u f w
  = (Returned (remote_record u f w),
     match remote w (length (calls w)) with
     | RemoteThrows =>
         log_call (ConsoleError "Error getting cloud progress:")
                  (log_call (SelectSingle u f) w)
     | RemoteOk | RemoteError => log_call (SelectSingle u f) w
     end).
Proof.
  unfold ClipsService.getCloudProgress, remote_record. io_unfold.
  destruct (remote w (length (calls w))); [| done | done].
  by destruct (table w !! (u, f)).
Qed.

Lemma getWatchProgress_runs (userId : option string) (f : string)
      (w : World) :
  ClipsService.getWatchProgress userId f w
  = match authenticated userId with
    | Some u =>
        match remote_record u f w with
        | Some p => (Returned (Some p), (ClipsService.getCloudProgress u f w).2)
        | None =>
            ClipsService.getLocalProgress f
              (ClipsService.getCloudProgress u f w).2
        end
    | None => ClipsService.getLocalProgress f w
    end.
Proof.
  unfold ClipsService.getWatchProgress, authenticated.
  destruct userId as [u |]; [destruct (truthy u) |]; try done.
  unfold mbind, io_bind. rewrite getCloudProgress_runs.
  by destruct (remote_record u f w).
Qed.

(** C8. [getWatchProgress]: for a non-empty [userId] the remote table is
    asked first and its record returned when the request yields one;
    when it fails or has no row the local cache is read instead; for an
    empty or absent [userId] only the local cache is read; the result is
    [null] exactly when no source that was read yields a record, which,
    when no call fails, is exactly when neither store holds one. *)
Theorem getWatchProgress_read_path (userId : option string) (f : string)
        (w : World) :
  let key := ClipsService.storage_key f in
  let remote_answer := authenticated userId ≫= λ u, remote_record u f w in
  let w1 := match authenticated userId with
            | Some u => (ClipsService.getCloudProgress u f w).2
            | None => w
            end in
  let w' := (ClipsService.getWatchProgress userId f w).2 in
  ∃ r, (ClipsService.getWatchProgress userId f w).1 = Returned r
  ∧ r = match remote_answer with
        | Some p => Some p
        | None => local_record f w1
        end
  ∧ (r = None ↔ remote_answer = None ∧ local_record f w1 = None)
  ∧ calls w1
    = calls w ++
        match authenticated userId with
        | Some u =>
            SelectSingle u f ::
              match remote w (length (calls w)) with
              | RemoteThrows => [ConsoleError "Error getting cloud progress:"]
              | _ => []
              end
        | None => []
        end
  ∧ calls w'
    = calls w1 ++
        match remote_answer with
        | Some _ => []
        | None =>
            GetItem key ::
              (if storage_fails w (length (calls w1))
               then [ConsoleError "Error loading local progress:"] else [])
        end
  ∧ storage w' = storage w ∧ table w' = table w
  ∧ ((∀ n, storage_fails w n = false) → (∀ n, remote w n = RemoteOk) →
     (r = None ↔
      (∀ u, authenticated userId = Some u → table w !! (u, f) = None)
      ∧ storage w !! key = None)).
Proof.
  cbn zeta. rewrite getWatchProgress_runs.
  destruct (authenticated userId) as [u |] eqn:Hauth; cbn [mbind option_bind].
  - rewrite getCloudProgress_runs. cbn [snd].
    destruct (remote_record u f w) as [p |] eqn:Hremote.
    + exists (Some p). cbn [fst snd].
      unfold remote_record in Hremote.
      destruct (remote w (length (calls w))) eqn:Hr; try discriminate.
      cbn. rewrite app_nil_r.
      repeat split; try done; try (by intros [? _]).
      intros [Hrow _]. specialize (Hrow u eq_refl).
      by rewrite Hrow in Hremote.
    + rewrite getLocalProgress_runs. eexists. split; [reflexivity |].
      split; [done |]. split; [split; [by split | by intros [_ ?]] |].
      unfold remote_record in Hremote. unfold local_record.
      destruct (remote w (length (calls w))) eqn:Hr; cbn;
        match goal with
        | |- context [storage_fails w ?n] =>
            destruct (storage_fails w n) eqn:Hs
        end; cbn; rewrite <- ?app_assoc; cbn;
        do 4 (split; [done |]); intros Hs' Hr';
        try (rewrite Hs' in Hs; discriminate);
        try (rewrite Hr' in Hr; discriminate).
      destruct (table w !! (u, f)) eqn:Ht; [discriminate |].
      split; [intros Hk; split; [by intros ? [= <-] | done]
             | by intros [_ Hk]].
  - rewrite getLocalProgress_runs. eexists. split; [reflexivity |].
    cbn [fst snd]. split; [done |]. split; [split; [by split | by intros [_ ?]] |].
    unfold local_record.
    destruct (storage_fails w (length (calls w))) eqn:Hs; cbn;
      rewrite ?app_nil_r, <- ?app_assoc; cbn;
      do 4 (split; [done |]); intros Hs' Hr';
      try (rewrite Hs' in Hs; discriminate).
    split; [by intros Hk | by intros [_ Hk]].
Qed.

(** ** The progress reporter *)

Lemma persisted_writes_app (cs ds : list call) :
  persisted_writes (cs ++ ds) = persisted_writes cs ++ persisted_writes ds.
Proof. apply omap_app. Qed.

Lemma saveWatchProgress_writes (p : WatchProgress) (w : World) :
  persisted_writes (calls (ClipsService.saveWatchProgress p w).2)
    = persisted_writes (calls w) ++ [p]
  ∧ clock (ClipsService.saveWatchProgress p w).2 = clock w.
Proof.
  rewrite saveWatchProgress_runs. cbn [snd]. cbn zeta.
  rewrite saveLocalProgress_runs. cbn [snd].
  destruct (truthy (userId p)); [rewrite syncProgressToCloud_runs; cbn [snd] |].
  all: destruct (storage_fails w (length (calls w))); cbn;
    try match goal with |- context [remote ?v ?n] => destruct (remote v n) end;
    cbn; rewrite !persisted_writes_app; cbn; by rewrite ?app_nil_r.
Qed.

Lemma saveProgress_runs (f : Film) (clipIndex : Z) (t : Q) (s : WatchState)
      (w : World) :
  film s = Some f →
  let progress :=
    mkProgress (film_id f) clipIndex t (clock w (length (calls w)))
               (Watch.user_id_or_empty (user s)) in
  Watch.saveProgress clipIndex t s w
  = (Returned (Watch.setWatchProgress (Some progress) s),
     (ClipsService.saveWatchProgress progress w).2).
Proof.
  intros Hfilm. cbn zeta. unfold Watch.saveProgress. rewrite Hfilm.
  unfold mbind, io_bind, get_now, try_catch.
  by rewrite saveWatchProgress_runs.
Qed.

Lemma on_save_boundary_multiple (t : Q) :
  Watch.on_save_boundary t = true ↔ (10 | Qfloor t).
Proof.
  unfold Watch.on_save_boundary. rewrite Z.eqb_eq.
  apply Z.rem_divide. lia.
Qed.

(** C1, as the claim states it, fails.  The screen is mounted on the first
    clip of the five-clip film, the feed reports that clip visible (the
    clip-change write) and the active player then sends three status events
    a second for thirty seconds.  Eleven records are persisted, not four:
    every event of the seconds 0, 10 and 20 is written, so a second that was
    already written is written again. *)
Lemma three_per_second_stream_writes :
  let w' := (Screen.run (ViewableItemsChanged [0] :: ticks_3_per_second)
                        (Screen.mount film5 None 0) quiet_world).2 in
  length (persisted_writes (calls w')) = 11%nat
  ∧ length (persisted_writes (calls w')) ≠ 4%nat
  ∧ map (λ p, Qfloor (currentTime p)) (persisted_writes (calls w'))
    = [0; 0; 0; 0; 10; 10; 10; 20; 20; 20; 30]
  ∧ length (writes_in_second 10 (calls w')) = 3%nat.
Proof. repeat split; vm_compute; congruence. Qed.

(** C1 (amended). For every stream of positions reported for the active
    clip, the reporter persists a record for every tick whose floored
    position is a multiple of 10, in order, and for no other tick; it keeps
    no memory of the seconds already written. *)
Theorem report_ticks_writes (f : Film) (clipIndex : Z) (duration : Q)
        (ticks : list Q) (s : WatchState) (w : World)
        (Hfilm : film s = Some f) :
  ∃ s' w',
    report_ticks clipIndex duration ticks s w = (Returned s', w')
    ∧ map position_of (persisted_writes (calls w'))
      = map position_of (persisted_writes (calls w)) ++
        map (λ t, (film_id f, Watch.user_id_or_empty (user s), clipIndex, t))
            (List.filter Watch.on_save_boundary ticks)
    ∧ (∀ t, t ∈ List.filter Watch.on_save_boundary ticks ↔
            t ∈ ticks ∧ (10 | Qfloor t)).
Proof.
  revert s w Hfilm.
  induction ticks as [| t ticks IH]; intros s w Hfilm.
  - exists s, w. cbn. rewrite app_nil_r. split; [done |]. split; [done |].
    intros t. rewrite list_elem_of_In. cbn. tauto.
  - cbn [report_ticks List.filter]. unfold mbind, io_bind.
    unfold Watch.handleProgress.
    assert (Hmem : ∀ x, x ∈ List.filter Watch.on_save_boundary (t :: ticks) ↔
                        x ∈ t :: ticks ∧ (10 | Qfloor x)).
    { intros x. rewrite !list_elem_of_In, filter_In.
      by rewrite on_save_boundary_multiple. }
    cbn [List.filter] in Hmem.
    destruct (Watch.on_save_boundary t) eqn:Hb.
    + rewrite (saveProgress_runs f) by done.
      set (p := mkProgress _ _ _ _ _).
      destruct (saveWatchProgress_writes p w) as [Hw _].
      destruct (IH (Watch.setWatchProgress (Some p) s)
                   (ClipsService.saveWatchProgress p w).2)
        as (s' & w' & Hrun & Hwrites & _); [done |].
      exists s', w'. split; [exact Hrun |]. split; [| exact Hmem].
      rewrite Hwrites, Hw, map_app. cbn. by rewrite <- app_assoc.
    + destruct (IH s w Hfilm) as (s' & w' & Hrun & Hwrites & _).
      exists s', w'. cbn. split; [exact Hrun |]. by split.
Qed.

Lemma report_ticks_writes_witness :
  film (watch (Screen.mount film5 None 0)) = Some film5
  ∧ ∃ s' w',
      report_ticks 0 60%Q [10%Q; (21 # 2)%Q; 11%Q]
                   (watch (Screen.mount film5 None 0)) quiet_world
      = (Returned s', w')
      ∧ map position_of (persisted_writes (calls w'))
        = map position_of (persisted_writes (calls quiet_world)) ++
          map (λ t, (film_id film5,
                     Watch.user_id_or_empty
                       (user (watch (Screen.mount film5 None 0))), 0, t))
              (List.filter Watch.on_save_boundary [10%Q; (21 # 2)%Q; 11%Q])
      ∧ (∀ t, t ∈ List.filter Watch.on_save_boundary
                    [10%Q; (21 # 2)%Q; 11%Q] ↔
              t ∈ [10%Q; (21 # 2)%Q; 11%Q] ∧ (10 | Qfloor t)).
Proof.
  split; [reflexivity |].
  exact (report_ticks_writes film5 0 60%Q [10%Q; (21 # 2)%Q; 11%Q]
           (watch (Screen.mount film5 None 0)) quiet_world eq_refl).
Defined.

(** ** The single-active invariant of the feed *)

Lemma run_effects_runs (old new : Z) (its : list VideoItem) :
  ∀ (i : nat) (w : World), ∃ w',
    Player.run_effects old new i its w
    = (Returned (items_after_effects old new i its), w')
    ∧ calls w' = calls w ++ pauses_issued old new i its.
Proof.
  induction its as [| it rest IH]; intros i w.
  - exists w. cbn. by rewrite app_nil_r.
  - cbn [Player.run_effects items_after_effects pauses_issued].
    unfold effect_fires, Player.visibilityEffect, Player.pauseAsync.
    unfold mbind, io_bind, mret, io_ret.
    destruct (Player.isVisible old i), (Player.isVisible new i),
      (videoRef it); cbn [Bool.eqb negb andb].
    all: match goal with
         | |- context [Player.run_effects _ _ (S ?j) _ ?v] =>
             destruct (IH (S j) v) as (w' & -> & Hcalls)
         end; exists w'; split; [done |]; rewrite Hcalls; cbn;
           by rewrite <- ?app_assoc.
Qed.

Lemma items_after_effects_lookup (old new : Z) (its : list VideoItem) :
  ∀ (i k : nat),
    items_after_effects old new i its !! k
    = (λ it, if effect_fires old new (i + k) it
             then Player.setIsPlaying false it else it) <$> its !! k.
Proof.
  induction its as [| it rest IH]; intros i k; [done |].
  destruct k as [| k]; cbn.
  - by rewrite Nat.add_0_r.
  - rewrite IH. by replace (S i + k)%nat with (i + S k)%nat by lia.
Qed.

Lemma items_after_effects_length (old new : Z) (its : list VideoItem) :
  ∀ i, length (items_after_effects old new i its) = length its.
Proof. induction its as [| it rest IH]; intros i; cbn; [done | by rewrite IH]. Qed.

Lemma pauses_issued_elem (old new : Z) (its : list VideoItem) :
  ∀ (i k : nat) (it : VideoItem),
    its !! k = Some it → effect_fires old new (i + k) it = true →
    PauseAsync (i + k) ∈ pauses_issued old new i its.
Proof.
  induction its as [| x rest IH]; intros i k it Hk Hf; [done |].
  destruct k as [| k]; cbn in *.
  - injection Hk as ->. rewrite Nat.add_0_r in *. rewrite Hf. set_solver.
  - apply elem_of_app. right.
    replace (i + S k)%nat with (S i + k)%nat in * by lia. by eapply IH.
Qed.

Lemma not_awaited_returns {P} (m : P → io P) (p : P) (w : World) :
  ∃ p' w', Player.not_awaited m p w = (Returned p', w').
Proof.
  unfold Player.not_awaited, try_catch, mret, io_ret.
  destruct (m p w) as [[a | e] w']; eauto.
Qed.

(** One visibility report keeps the invariant; when it moves the active
    index, every clip that played is paused and no clip plays. *)
Lemma onViewableItemsChanged_step {P} (onClipChange : Z → P → io P)
      (viewableItems : list Z) (s : PlayerState) (p : P) (w : World) :
  only_active_plays s →
  ∃ s' p' w',
    Player.onViewableItemsChanged onClipChange viewableItems s p w
    = (Returned (s', p'), w')
    ∧ only_active_plays s'
    ∧ (∀ newIndex others, viewableItems = newIndex :: others →
       currentIndex s' = newIndex
       ∧ (newIndex ≠ currentIndex s →
          (∀ i it, items s !! i = Some it → isPlaying it = true →
             PauseAsync i ∈ calls w'
             ∧ items s' !! i = Some (Player.setIsPlaying false it))
          ∧ (∀ i it', items s' !! i = Some it' → isPlaying it' = false))).
Proof.
  intros Hinv. destruct viewableItems as [| newIndex others].
  - exists s, p, w. split; [done |]. split; [done |]. by intros.
  - cbn [Player.onViewableItemsChanged]. unfold mbind, io_bind.
    destruct (not_awaited_returns (onClipChange newIndex) p w)
      as (p' & w1 & ->).
    destruct (run_effects_runs (currentIndex s) newIndex (items s) 0 w1)
      as (w' & -> & Hcalls).
    exists (mkPlayer newIndex
              (items_after_effects (currentIndex s) newIndex 0 (items s))),
      p', w'.
    split; [done |].
    assert (Hfire : ∀ i it, items s !! i = Some it → isPlaying it = true →
              newIndex ≠ currentIndex s →
              effect_fires (currentIndex s) newIndex i it = true).
    { intros i it Hi Hplay Hne. destruct (Hinv i it Hi Hplay) as [Hcur Href].
      unfold effect_fires, Player.isVisible. rewrite Href, Hcur.
      rewrite Z.eqb_refl. cbn. rewrite andb_true_r. apply negb_true_iff.
      apply Z.eqb_neq. congruence. }
    split.
    + intros i it'. cbn [items currentIndex].
      rewrite items_after_effects_lookup. cbn [Nat.add].
      destruct (items s !! i) as [it |] eqn:Hi; [| done].
      cbn. intros [= <-].
      destruct (effect_fires (currentIndex s) newIndex i it) eqn:Hf;
        [done |].
      intros Hplay. destruct (Hinv i it Hi Hplay) as [Hcur Href].
      split; [| done].
      destruct (Z.eq_dec newIndex (currentIndex s)) as [-> | Hne]; [done |].
      rewrite (Hfire i it Hi Hplay Hne) in Hf. discriminate.
    + intros ? ? [= <- <-]. split; [done |]. intros Hne.
      cbn [items]. split.
      * intros i it Hi Hplay.
        rewrite items_after_effects_lookup, Hi. cbn.
        rewrite (Hfire i it Hi Hplay Hne). split; [| done].
        rewrite Hcalls. apply elem_of_app. right.
        apply (pauses_issued_elem _ _ _ 0 i it Hi).
        by apply Hfire.
      * intros i it'. rewrite items_after_effects_lookup. cbn [Nat.add].
        destruct (items s !! i) as [it |] eqn:Hi; [| done].
        cbn. intros [= <-].
        destruct (effect_fires (currentIndex s) newIndex i it) eqn:Hf;
          [done |].
        destruct (isPlaying it) eqn:Hplay; [| done].
        rewrite (Hfire i it Hi Hplay Hne) in Hf. discriminate.
Qed.

Lemma filter_one_index {A} (f : A → bool) (l : list A) (n : nat) :
  (∀ i x, l !! i = Some x → f x = true → i = n) →
  (length (List.filter f l) ≤ 1)%nat.
Proof.
  revert n. induction l as [| x l IH]; intros n Hl; cbn; [lia |].
  destruct (f x) eqn:Hx.
  - assert (Hn : 0%nat = n) by (by apply (Hl 0%nat x)).
    assert (Hno : List.filter f l = []).
    { clear IH. destruct (List.filter f l) as [| y ys] eqn:Hf; [done |].
      assert (Hy : In y (List.filter f l)) by (rewrite Hf; by left).
      apply filter_In in Hy as [Hy Hfy].
      apply list_elem_of_In, list_elem_of_lookup in Hy as [j Hj].
      specialize (Hl (S j) y Hj Hfy). lia. }
    rewrite Hno. cbn. lia.
  - destruct n as [| n].
    + assert (Hno : List.filter f l = []).
      { destruct (List.filter f l) as [| y ys] eqn:Hf; [done |].
        assert (Hy : In y (List.filter f l)) by (rewrite Hf; by left).
        apply filter_In in Hy as [Hy Hfy].
        apply list_elem_of_In, list_elem_of_lookup in Hy as [j Hj].
        specialize (Hl (S j) y Hj Hfy). lia. }
      rewrite Hno. cbn. lia.
    + apply (IH n). intros i y Hi Hy. specialize (Hl (S i) y Hi Hy). lia.
Qed.

Lemma only_active_plays_count (s : PlayerState) :
  only_active_plays s → (playing_count s ≤ 1)%nat.
Proof.
  intros Hinv. unfold playing_count.
  destruct (Z.ltb_spec (currentIndex s) 0) as [Hneg | Hpos].
  - apply (filter_one_index _ _ 0). intros i it Hi Hplay.
    destruct (Hinv i it Hi Hplay) as [Hcur _]. lia.
  - apply (filter_one_index _ _ (Z.to_nat (currentIndex s))).
    intros i it Hi Hplay. destruct (Hinv i it Hi Hplay) as [Hcur _]. lia.
Qed.

Lemma all_legal_spec (current : Z) (its : list VideoItem) :
  ∀ i, all_legal current i its = true ↔
       ∀ k it, its !! k = Some it → isPlaying it = true →
               Z.of_nat (i + k) = current ∧ videoRef it = true.
Proof.
  induction its as [| x rest IH]; intros i; cbn [all_legal].
  - split; [by intros _ k it | done].
  - rewrite andb_true_iff, IH. unfold plays_legally, Player.isVisible.
    split.
    + intros [Hx Hrest] [| k] it; cbn.
      * intros [= <-] Hplay. rewrite Hplay in Hx. cbn in Hx.
        apply andb_true_iff in Hx as [Hv Href].
        apply Z.eqb_eq in Hv. split; [| done]. by rewrite Nat.add_0_r.
      * intros Hk Hplay. destruct (Hrest k it Hk Hplay) as [Hc Href].
        split; [| done]. by replace (i + S k)%nat with (S i + k)%nat by lia.
    + intros Hall. split.
      * destruct (isPlaying x) eqn:Hplay; [| done]. cbn.
        destruct (Hall 0%nat x eq_refl Hplay) as [Hc Href].
        rewrite Nat.add_0_r in Hc. rewrite Href, andb_true_r.
        by apply Z.eqb_eq.
      * intros k it Hk Hplay. destruct (Hall (S k) it Hk Hplay) as [Hc Href].
        split; [| done]. by replace (S i + k)%nat with (i + S k)%nat by lia.
Qed.

Lemma single_active_spec (s : PlayerState) :
  single_active s = true ↔ only_active_plays s.
Proof. unfold single_active. by rewrite all_legal_spec. Qed.

Lemma filter_none {A} (f : A → bool) (l : list A) :
  (∀ i x, l !! i = Some x → f x = false) → List.filter f l = [].
Proof.
  induction l as [| x l IH]; intros Hl; cbn; [done |].
  rewrite (Hl 0%nat x eq_refl). apply IH.
  intros i y Hi. by apply (Hl (S i)).
Qed.

Lemma visibility_changes_keep_invariant {P} (onClipChange : Z → P → io P)
      (reports : list (list Z)) :
  ∀ (s : PlayerState) (p : P) (w : World),
    only_active_plays s →
    ∃ s' p' w',
      visibility_changes onClipChange reports s p w = (Returned (s', p'), w')
      ∧ only_active_plays s'.
Proof.
  induction reports as [| viewableItems rest IH]; intros s p w Hinv.
  - by exists s, p, w.
  - cbn [visibility_changes]. unfold mbind, io_bind.
    destruct (onViewableItemsChanged_step onClipChange viewableItems s p w Hinv)
      as (s1 & p1 & w1 & -> & Hinv1 & _).
    cbn [fst snd]. by apply IH.
Qed.

(** C2. Whatever visibility reports the feed processes, at most one clip
    has [isPlaying = true] afterwards, and it is the clip at the active
    index; a report that moves the active index pauses the clip that was
    playing (the pause command is issued and its [isPlaying] is reset), and
    leaves no clip playing, so that only the newly active clip may play
    next. *)
Theorem single_active_clip {P} (onClipChange : Z → P → io P)
        (reports : list (list Z)) (s : PlayerState) (p : P) (w : World)
        (Hinv : single_active s = true) :
  (∃ s' p' w',
     visibility_changes onClipChange reports s p w = (Returned (s', p'), w')
     ∧ single_active s' = true
     ∧ (playing_count s' ≤ 1)%nat
     ∧ (∀ i it, items s' !! i = Some it → isPlaying it = true →
                Z.of_nat i = currentIndex s'))
  ∧ (∀ newIndex others, newIndex ≠ currentIndex s →
     ∃ s' p' w',
       Player.onViewableItemsChanged onClipChange (newIndex :: others) s p w
       = (Returned (s', p'), w')
       ∧ currentIndex s' = newIndex
       ∧ playing_count s' = 0%nat
       ∧ (∀ i it, items s !! i = Some it → isPlaying it = true →
            PauseAsync i ∈ calls w'
            ∧ items s' !! i = Some (Player.setIsPlaying false it))).
Proof.
  apply single_active_spec in Hinv. split.
  - destruct (visibility_changes_keep_invariant onClipChange reports s p w Hinv)
      as (s' & p' & w' & Hrun & Hinv').
    exists s', p', w'. split; [exact Hrun |].
    split; [by apply single_active_spec |].
    split; [by apply only_active_plays_count |].
    intros i it Hi Hplay. by destruct (Hinv' i it Hi Hplay).
  - intros newIndex others Hne.
    destruct (onViewableItemsChanged_step onClipChange (newIndex :: others)
                s p w Hinv) as (s' & p' & w' & Hrun & _ & Hstep).
    destruct (Hstep newIndex others eq_refl) as [Hcur Hmove].
    destruct (Hmove Hne) as [Hpaused Hquiet].
    exists s', p', w'. split; [exact Hrun |]. split; [exact Hcur |].
    split; [| exact Hpaused].
    unfold playing_count. by rewrite (filter_none _ _ Hquiet).
Qed.

Lemma single_active_clip_witness :
  let s := mkPlayer 0 [mkItem true false 7%Q 60%Q true true;
                       Screen.mounted_item; Screen.mounted_item] in
  single_active s = true
  ∧ ∃ s' p' w',
      visibility_changes Watch.handleClipChange [[1]; [1; 2]; []; [0]] s
        (watch (Screen.mount film5 None 0)) quiet_world
      = (Returned (s', p'), w')
      ∧ single_active s' = true
      ∧ (playing_count s' ≤ 1)%nat
      ∧ (∀ i it, items s' !! i = Some it → isPlaying it = true →
                 Z.of_nat i = currentIndex s').
Proof.
  cbn zeta. split; [reflexivity |].
  exact (proj1 (single_active_clip Watch.handleClipChange
                  [[1]; [1; 2]; []; [0]]
                  (mkPlayer 0 [mkItem true false 7%Q 60%Q true true;
                               Screen.mounted_item; Screen.mounted_item])
                  (watch (Screen.mount film5 None 0)) quiet_world eq_refl)).
Defined.

(** ** Two runs of the screen *)

(** C3. The feed reports every item's status under [currentIndex].  Clip 0
    is active and its position 10 s has been persisted; clip 1, in the
    background, finishes loading and sends its first status at position 0.
    That status is reported upward as progress of clip 0, and the record of
    clip 0 is replaced by position 0. *)
Example background_tick_overwrites_progress :
  let a0 := Screen.mount film5 (Some "u1") 0 in
  let active :=
    PlaybackStatusUpdate 0 (StatusLoaded 10000 (Some 60000) true false) in
  let background :=
    PlaybackStatusUpdate 1 (StatusLoaded 0 (Some 60000) false false) in
  let before := (Screen.run [active] a0 quiet_world).2 in
  let after := (Screen.run [active; background] a0 quiet_world).2 in
  currentIndex (player a0) = 0
  ∧ storage before !! "tinky_watch_progress_film-1"
    = Some (progress_of "u1" "film-1" 0 (10000 # 1000))
  ∧ storage after !! "tinky_watch_progress_film-1"
    = Some (progress_of "u1" "film-1" 0 (0 # 1000))
  ∧ persisted_writes (calls after)
    = [progress_of "u1" "film-1" 0 (10000 # 1000);
       progress_of "u1" "film-1" 0 (0 # 1000)]
  ∧ storage after ≠ storage before.
Proof.
  cbn zeta. split; [reflexivity |]. split; [by vm_compute |].
  split; [by vm_compute |]. split; [by vm_compute |].
  intros Heq.
  assert (Hk : storage (Screen.run
                 [PlaybackStatusUpdate 0
                    (StatusLoaded 10000 (Some 60000) true false);
                  PlaybackStatusUpdate 1
                    (StatusLoaded 0 (Some 60000) false false)]
                 (Screen.mount film5 (Some "u1") 0) quiet_world).2
               !! "tinky_watch_progress_film-1"
               = Some (progress_of "u1" "film-1" 0 (0 # 1000)))
    by (by vm_compute).
  rewrite Heq in Hk. vm_compute in Hk. discriminate.
Qed.

(** C4. The feed makes clip 2 of the five-clip film active; the access
    check refuses it for a viewer without premium and the alert is shown,
    but the clip is the visible one in the feed: its first status at
    position 0 triggers the automatic play command, and the clip plays. *)
Example denied_clip_plays :
  let a0 := Screen.mount film5 None 0 in
  let loaded :=
    PlaybackStatusUpdate 2 (StatusLoaded 0 (Some 60000) false false) in
  let playing :=
    PlaybackStatusUpdate 2 (StatusLoaded 333 (Some 60000) true false) in
  let r := Screen.run [ViewableItemsChanged [2]; loaded; playing]
                      a0 quiet_world in
  ClipsService.canAccessClip film5 2 false = false
  ∧ alerts (calls r.2) = ["Premium Content"]
  ∧ play_commands (calls r.2) = [2%nat]
  ∧ ∃ a, r.1 = Returned a
         ∧ currentIndex (player a) = 2
         ∧ isPlaying <$> items (player a) !! 2%nat = Some true.
Proof.
  cbn zeta. split; [reflexivity |]. split; [by vm_compute |].
  split; [by vm_compute |].
  eexists. split; [by vm_compute |]. by vm_compute.
Qed.

(** * Further properties of the service *)

(** ** Saving and reading back *)

Lemma saveWatchProgress_world (p : WatchProgress) (w : World) :
  let w' := (ClipsService.saveWatchProgress p w).2 in
  storage w'
  = (if storage_fails w (length (calls w)) then storage w
     else <[ClipsService.storage_key (filmId p) := p]> (storage w))
  ∧ (table w' = table w
     ∨ truthy (userId p) = true
       ∧ ∃ stamp n, remote w n = RemoteOk
         ∧ table w'
           = <[(userId p, filmId p) := row_of_progress stamp p]> (table w))
  ∧ (truthy (userId p) = true → (∀ n, remote w n = RemoteOk) →
     ∃ stamp, table w'
       = <[(userId p, filmId p) := row_of_progress stamp p]> (table w))
  ∧ storage_fails w' = storage_fails w
  ∧ remote w' = remote w.
Proof.
  cbn zeta. rewrite saveWatchProgress_runs. cbn [snd]. cbn zeta.
  rewrite saveLocalProgress_runs. cbn [snd].
  destruct (truthy (userId p)) eqn:Hu.
  - rewrite syncProgressToCloud_runs. cbn [snd]. cbn zeta.
    destruct (storage_fails w (length (calls w))); cbn;
      match goal with
      | |- context [remote w ?n] => destruct (remote w n) eqn:Hr
      end; cbn.
    all: split; [done |].
    all: split; [first [by left | right; split; [done |]; eauto] |].
    all: split; [| done].
    all: intros _ Hok; first [by eexists | rewrite Hok in Hr; discriminate].
  - destruct (storage_fails w (length (calls w))); cbn;
      (split; [done |]); (split; [by left |]); by split.
Qed.

Lemma progress_of_row_of_progress (stamp : string) (p : WatchProgress) :
  progress_of_row (row_of_progress stamp p) = p.
Proof. by destruct p. Qed.

Lemma authenticated_truthy (reader : option string) (u : string) :
  authenticated reader = Some u → truthy u = true.
Proof.
  unfold authenticated. destruct reader as [v |]; [| done].
  destruct (truthy v) eqn:Hv; [| done]. by intros [= <-].
Qed.

Lemma read_after_save (p : WatchProgress) (reader : option string)
      (w : World) :
  ((∀ n, storage_fails w n = false)
   ∧ (authenticated reader = None ∨ ∀ n, remote w n ≠ RemoteOk))
  ∨ (authenticated reader = Some (userId p) ∧ ∀ n, remote w n = RemoteOk) →
  (ClipsService.getWatchProgress reader (filmId p)
     (ClipsService.saveWatchProgress p w).2).1
  = Returned (Some p).
Proof.
  destruct (saveWatchProgress_world p w) as (Hst & _ & Htable & Hsf & Hrem).
  rewrite getWatchProgress_runs.
  intros [[Hstorage Hreader] | [Hauth Hremote]].
  - rewrite Hstorage in Hst.
    assert (Hlocal : ∀ v,
              storage v = storage (ClipsService.saveWatchProgress p w).2 →
              storage_fails v = storage_fails w →
              local_record (filmId p) v = Some p).
    { intros v Hv Hf. unfold local_record.
      by rewrite Hf, Hstorage, Hv, Hst, lookup_insert_eq. }
    destruct (authenticated reader) as [u |] eqn:Hauth.
    + destruct Hreader as [Hanon | Hoff]; [discriminate |].
      unfold remote_record at 1. rewrite Hrem.
      rewrite getLocalProgress_runs, getCloudProgress_runs. cbn [fst snd].
      rewrite Hrem.
      match goal with
      | |- context [remote w ?n] =>
          specialize (Hoff n); destruct (remote w n); [done | |]
      end.
      all: cbn [fst]; f_equal; apply Hlocal; [done | by rewrite <- Hsf].
    + rewrite getLocalProgress_runs. cbn [fst]. f_equal. by apply Hlocal.
  - rewrite Hauth.
    destruct (Htable (authenticated_truthy _ _ Hauth) Hremote) as [stamp Ht].
    unfold remote_record. rewrite Hrem, Hremote, Ht, lookup_insert_eq. cbn.
    by rewrite progress_of_row_of_progress.
Qed.

(** X1. Online round trip: what a signed-in user saves is what the same
    user reads back when the remote store answers, whether or not the
    local cache works. *)
Theorem save_then_read_online (p : WatchProgress) (w : World)
        (Huser : truthy (userId p) = true)
        (Hremote : ∀ n, remote w n = RemoteOk) :
  (ClipsService.getWatchProgress (Some (userId p)) (filmId p)
     (ClipsService.saveWatchProgress p w).2).1
  = Returned (Some p).
Proof.
  apply read_after_save. right. split; [| exact Hremote].
  unfold authenticated. by rewrite Huser.
Qed.

Lemma save_then_read_online_witness :
  truthy (userId (progress_of "u1" "film-1" 2 7%Q)) = true
  ∧ (∀ n, remote quiet_world n = RemoteOk)
  ∧ (ClipsService.getWatchProgress (Some "u1") "film-1"
       (ClipsService.saveWatchProgress (progress_of "u1" "film-1" 2 7%Q)
          quiet_world).2).1
    = Returned (Some (progress_of "u1" "film-1" 2 7%Q)).
Proof.
  split; [reflexivity |]. split; [intros n; reflexivity |].
  exact (save_then_read_online (progress_of "u1" "film-1" 2 7%Q) quiet_world
           eq_refl (λ n, eq_refl)).
Defined.

(** X2. Local round trip: when the local cache works, what was saved for a
    film is what is read back for that film by a reader who is not signed
    in, or by any reader while the remote store does not answer; the reader
    need not be the user the record was saved for. *)
Theorem save_then_read_local (p : WatchProgress) (reader : option string)
        (w : World)
        (Hstorage : ∀ n, storage_fails w n = false)
        (Hreader : authenticated reader = None ∨ ∀ n, remote w n ≠ RemoteOk) :
  (ClipsService.getWatchProgress reader (filmId p)
     (ClipsService.saveWatchProgress p w).2).1
  = Returned (Some p).
Proof.
  apply read_after_save. left. by split.
Qed.

Lemma save_then_read_local_witness :
  (∀ n, storage_fails quiet_world n = false)
  ∧ (authenticated None = None ∨ ∀ n, remote quiet_world n ≠ RemoteOk)
  ∧ (ClipsService.getWatchProgress None "film-1"
       (ClipsService.saveWatchProgress (progress_of "alice" "film-1" 3 12%Q)
          quiet_world).2).1
    = Returned (Some (progress_of "alice" "film-1" 3 12%Q)).
Proof.
  split; [intros n; reflexivity |]. split; [left; reflexivity |].
  exact (save_then_read_local (progress_of "alice" "film-1" 3 12%Q) None
           quiet_world (λ n, eq_refl) (or_introl eq_refl)).
Defined.

(** X3. Saving the progress of one film leaves the cache entry and the
    remote rows of every other film as they were. *)
Theorem save_leaves_other_films (p : WatchProgress) (w : World)
        (g : string) (Hother : g ≠ filmId p) :
  let w' := (ClipsService.saveWatchProgress p w).2 in
  storage w' !! ClipsService.storage_key g
  = storage w !! ClipsService.storage_key g
  ∧ ∀ u, table w' !! (u, g) = table w !! (u, g).
Proof.
  cbn zeta.
  destruct (saveWatchProgress_world p w) as (Hst & Ht & _).
  split.
  - rewrite Hst. destruct (storage_fails w (length (calls w))); [done |].
    apply lookup_insert_ne. intros Hk.
    apply (proj1 (storage_key_inj _ _)) in Hk. congruence.
  - intros u. destruct Ht as [-> | (_ & stamp & n & _ & ->)]; [done |].
    apply lookup_insert_ne. congruence.
Qed.

Lemma save_leaves_other_films_witness :
  "film-2" ≠ filmId (progress_of "u1" "film-1" 2 7%Q)
  ∧ let w' := (ClipsService.saveWatchProgress
                 (progress_of "u1" "film-1" 2 7%Q) quiet_world).2 in
    storage w' !! ClipsService.storage_key "film-2"
    = storage quiet_world !! ClipsService.storage_key "film-2"
    ∧ ∀ u, table w' !! (u, "film-2") = table quiet_world !! (u, "film-2").
Proof.
  assert (Hne : "film-2" ≠ filmId (progress_of "u1" "film-1" 2 7%Q))
    by (cbn; congruence).
  split; [exact Hne |].
  exact (save_leaves_other_films (progress_of "u1" "film-1" 2 7%Q)
           quiet_world "film-2" Hne).
Defined.

(** ** Films built from rows *)

Lemma insert_by_idx_perm (c : RawClip) (l : list RawClip) :
  ClipsService.insert_by_idx c l ≡ₚ c :: l.
Proof.
  induction l as [| d rest IH]; cbn; [done |].
  destruct (_ <=? _); [done |]. rewrite IH. apply Permutation_swap.
Qed.

Lemma sort_by_idx_perm (l : list RawClip) :
  ClipsService.sort_by_idx l ≡ₚ l.
Proof.
  induction l as [| c rest IH]; cbn; [done |].
  by rewrite insert_by_idx_perm, IH.
Qed.

Lemma insert_by_idx_sorted (c : RawClip) (l : list RawClip) :
  StronglySorted Z.le (map ClipsService.idx_number l) →
  StronglySorted Z.le
    (map ClipsService.idx_number (ClipsService.insert_by_idx c l)).
Proof.
  induction l as [| d rest IH]; cbn; intros Hs.
  - repeat constructor.
  - apply StronglySorted_cons in Hs as [Hd Hrest].
    destruct (Z.leb_spec (ClipsService.idx_number c - ClipsService.idx_number d) 0)
      as [Hle | Hgt]; cbn.
    + apply StronglySorted_cons. split.
      * constructor; [lia |].
        eapply Forall_impl; [exact Hd |]. cbn. intros; lia.
      * apply StronglySorted_cons. by split.
    + apply StronglySorted_cons. split; [| by apply IH].
      rewrite insert_by_idx_perm. cbn. constructor; [lia | done].
Qed.

Lemma sort_by_idx_sorted (l : list RawClip) :
  StronglySorted Z.le
    (map ClipsService.idx_number (ClipsService.sort_by_idx l)).
Proof.
  induction l as [| c rest IH]; cbn; [constructor |].
  by apply insert_by_idx_sorted.
Qed.

Lemma free_rows_unrestricted (l : list RawClip) :
  length (List.filter ClipsService.is_free_row l)
  = length (List.filter unrestricted (map ClipsService.clip_of_row l)).
Proof.
  induction l as [| c rest IH]; [done |]. cbn [List.filter map].
  assert (ClipsService.is_free_row c
          = unrestricted (ClipsService.clip_of_row c)) as ->.
  { unfold ClipsService.is_free_row, unrestricted. cbn.
    by destruct (is_free_preview c) as [[|] |]. }
  destruct (unrestricted _); cbn [length]; by rewrite IH.
Qed.

Lemma filter_length_le {A} (f : A → bool) (l : list A) :
  (length (List.filter f l) ≤ length l)%nat.
Proof.
  induction l as [| x l IH]; cbn; [lia |]. destruct (f x); cbn; lia.
Qed.

Lemma film_of_row_counts_aux (cover_key stamp : string) (row : RawFilm) :
  let f := film_of (ClipsService.film_of_row cover_key stamp row) in
  freeClipLimit f = Z.of_nat (length (List.filter unrestricted (clips f)))
  ∧ (length (List.filter unrestricted (clips f)) ≤ length (clips f))%nat.
Proof.
  cbn. rewrite free_rows_unrestricted. split; [done |].
  apply filter_length_le.
Qed.

(** X4. A film built from a row is consistent: [totalClips] is the number
    of its clips (one per row clip), and [freeClipLimit] is the number of
    its unrestricted clips, hence between 0 and [totalClips]. *)
Theorem film_of_row_counts (cover_key stamp : string) (row : RawFilm) :
  let f := film_of (ClipsService.film_of_row cover_key stamp row) in
  totalClips f = Z.of_nat (length (clips f))
  ∧ length (clips f) = length (default [] (raw_film_clips row))
  ∧ freeClipLimit f = Z.of_nat (length (List.filter unrestricted (clips f)))
  ∧ 0 ≤ freeClipLimit f ≤ totalClips f
  ∧ film_id f = raw_film_id row.
Proof.
  cbn. rewrite length_map, free_rows_unrestricted.
  split; [done |].
  split; [apply Permutation_length, sort_by_idx_perm |].
  split; [done |]. split; [| done].
  pose proof (filter_length_le unrestricted
                (map ClipsService.clip_of_row
                   (ClipsService.sort_by_idx (default [] (raw_film_clips row)))))
    as Hle.
  rewrite length_map in Hle. lia.
Qed.

(** X5. The clips of a film built from a row are the clips of the row,
    each one once, in ascending [order] (a [null] idx counting as 0). *)
Theorem film_of_row_sorted (cover_key stamp : string) (row : RawFilm) :
  let f := film_of (ClipsService.film_of_row cover_key stamp row) in
  StronglySorted Z.le (map order (clips f))
  ∧ clips f ≡ₚ map ClipsService.clip_of_row (default [] (raw_film_clips row)).
Proof.
  cbn. split.
  - rewrite <- list_fmap_compose.
    apply (sort_by_idx_sorted (default [] (raw_film_clips row))).
  - apply fmap_Permutation, sort_by_idx_perm.
Qed.

Lemma free_first_lookup (l : list Clip) :
  free_first l = true →
  ∀ k, match l !! k with
       | Some c =>
           unrestricted c
           = (k <? length (List.filter unrestricted l))%nat
       | None => (length (List.filter unrestricted l) ≤ k)%nat
       end.
Proof.
  induction l as [| c rest IH]; intros Hff k.
  { rewrite lookup_nil. cbn. lia. }
  cbn [free_first] in Hff. cbn [List.filter].
  destruct (unrestricted c) eqn:Hc.
  - assert (Hrest : free_first rest = true).
    { unfold unrestricted in Hc. by destruct (isPremium c) as [[|] |]. }
    rewrite lookup_cons. destruct k as [| k]; cbn [length];
      [by rewrite Hc |].
    specialize (IH Hrest k).
    destruct (rest !! k); [| lia].
    rewrite IH.
    by destruct (Nat.ltb_spec k (length (List.filter unrestricted rest))),
      (Nat.ltb_spec (S k) (S (length (List.filter unrestricted rest))));
      try lia.
  - assert (Hnone : ∀ i x, rest !! i = Some x → unrestricted x = false).
    { unfold unrestricted in Hc. destruct (isPremium c) as [[|] |]; try done.
      rewrite forallb_forall in Hff. intros i x Hi.
      assert (Hx : In x rest)
        by (apply list_elem_of_In, list_elem_of_lookup; eauto).
      specialize (Hff x Hx). unfold unrestricted.
      by destruct (isPremium x) as [[|] |]. }
    rewrite (filter_none _ _ Hnone).
    rewrite lookup_cons. destruct k as [| k]; cbn [length];
      [by rewrite Hc |].
    destruct (rest !! k) as [d |] eqn:Hk; [| lia].
    by rewrite (Hnone k d Hk).
Qed.

(** X6. When no free clip of a film built from a row comes after a premium
    one, a viewer without premium can open exactly the first
    [freeClipLimit] clips: the access check is [0 <= i < freeClipLimit]. *)
Theorem free_first_access (cover_key stamp : string) (row : RawFilm)
        (clipIndex : Z) :
  let f := film_of (ClipsService.film_of_row cover_key stamp row) in
  free_first (clips f) = true →
  ClipsService.canAccessClip f clipIndex false
  = (0 <=? clipIndex) && (clipIndex <? freeClipLimit f).
Proof.
  cbn zeta. intros Hff.
  destruct (film_of_row_counts_aux cover_key stamp row) as [Hlimit Hle].
  unfold ClipsService.canAccessClip, ClipsService.clip_at.
  destruct (Z.ltb_spec clipIndex 0) as [Hneg | Hpos].
  - by destruct (Z.leb_spec 0 clipIndex); [lia |].
  - destruct (Z.leb_spec 0 clipIndex); [| lia]. cbn [andb].
    pose proof (free_first_lookup _ Hff (Z.to_nat clipIndex)) as Hk.
    rewrite Hlimit.
    destruct (clips _ !! Z.to_nat clipIndex) as [c |] eqn:Hc.
    + unfold unrestricted in Hk at 1.
      destruct (isPremium c) as [[|] |];
        destruct (Nat.ltb_spec (Z.to_nat clipIndex)
                    (length (List.filter unrestricted
                       (clips (film_of (ClipsService.film_of_row
                                          cover_key stamp row))))));
        try discriminate;
        by destruct (Z.ltb_spec clipIndex
             (Z.of_nat (length (List.filter unrestricted
                (clips (film_of (ClipsService.film_of_row
                                   cover_key stamp row))))))); try lia.
    + symmetry. apply Z.ltb_ge. lia.
Qed.

Lemma free_first_access_witness :
  let f := film_of (ClipsService.film_of_row "cover_url" "" raw_film3) in
  free_first (clips f) = true
  ∧ ClipsService.canAccessClip f 2 false
    = (0 <=? 2) && (2 <? freeClipLimit f).
Proof.
  cbn zeta. split; [reflexivity |].
  exact (free_first_access "cover_url" "" raw_film3 2 eq_refl).
Defined.

(** ** Requests to the content store *)

(** X7. [getAllFilms] and [getFilm] never reject.  [getAllFilms] yields one
    film per row, in the order of the rows, and no film when the request
    throws, reports an error or has no data; [getFilm] yields the film
    built from the row, and [null] in the other three cases. *)
Theorem content_requests
        (films_query : io (option (list RawFilm) * option string))
        (film_query : string → io (option RawFilm * option string))
        (id : string) (w : World) :
  match (ClipsService.getAllFilms films_query w).1 with
  | Returned r =>
      match (films_query w).1 with
      | Returned (Some rows, None) =>
          map (λ d, film_id (film_of d)) r = map raw_film_id rows
      | _ => r = []
      end
  | Thrown _ => False
  end
  ∧ match (ClipsService.getFilm film_query id w).1 with
    | Returned r =>
        match (film_query id w).1 with
        | Returned (Some row, None) =>
            ∃ stamp, r = Some (ClipsService.film_of_row "cover_url" stamp row)
        | _ => r = None
        end
    | Thrown _ => False
    end.
Proof.
  unfold ClipsService.getAllFilms, ClipsService.getFilm,
    ClipsService.console_log.
  io_unfold. split.
  - destruct (films_query w) as [[[[[| row rows] |] [err |]] | e] w1]; cbn;
      try done.
    f_equal. rewrite <- list_fmap_compose. by apply list_fmap_ext.
  - destruct (film_query id w) as [[[[row |] [err |]] | e] w1]; cbn;
      try done. by eexists.
Qed.

(** X8. The films of [getAllFilms] all have an empty [coverImageUrl],
    whatever cover the rows carry: the cover is read under the key
    [cover-url], which no row has.  [getFilm] reads [cover_url] and yields
    the cover of the row. *)
Theorem cover_image_of_listed_films
        (films_query : io (option (list RawFilm) * option string))
        (film_query : string → io (option RawFilm * option string))
        (id : string) (w : World) :
  match (ClipsService.getAllFilms films_query w).1 with
  | Returned r => Forall (λ d, coverImageUrl d = "") r
  | Thrown _ => False
  end
  ∧ match (ClipsService.getFilm film_query id w).1,
          (film_query id w).1 with
    | Returned (Some d), Returned (Some row, None) =>
        coverImageUrl d = ClipsService.or_default (cover_url row) ""
    | Returned (Some _), _ => False
    | Returned None, _ => True
    | Thrown _, _ => False
    end.
Proof.
  unfold ClipsService.getAllFilms, ClipsService.getFilm,
    ClipsService.console_log.
  io_unfold. split.
  - destruct (films_query w) as [[[[[| row rows] |] [err |]] | e] w1]; cbn;
      try done; try (by constructor).
    constructor; [done |]. by apply Forall_fmap, Forall_true.
  - by destruct (film_query id w) as [[[[row |] [err |]] | e] w1].
Qed.

(** ** Moving between clips *)

(** X9. With [totalClips] the number of clips of the film, the next index
    is [i + 1] exactly when [canGoToNextClip] holds and the last index
    otherwise; the previous index is [i - 1] exactly when
    [canGoToPreviousClip] holds and 0 otherwise.  A step the film allows
    lands on a clip, and going back undoes it. *)
Theorem navigation_helpers (film : Film) (i : Z) :
  let n := Z.of_nat (length (clips film)) in
  ClipsService.getNextClipIndex i n
  = (if ClipsService.canGoToNextClip film i then i + 1 else n - 1)
  ∧ ClipsService.getPreviousClipIndex i
    = (if ClipsService.canGoToPreviousClip i then i - 1 else 0)
  ∧ (0 ≤ i → ClipsService.canGoToNextClip film i = true →
     is_Some (ClipsService.clip_at film (ClipsService.getNextClipIndex i n))
     ∧ ClipsService.getPreviousClipIndex (ClipsService.getNextClipIndex i n)
       = i)
  ∧ (i < n → ClipsService.canGoToPreviousClip i = true →
     is_Some (ClipsService.clip_at film (ClipsService.getPreviousClipIndex i))
     ∧ ClipsService.getNextClipIndex (ClipsService.getPreviousClipIndex i) n
       = i).
Proof.
  cbn zeta.
  unfold ClipsService.getNextClipIndex, ClipsService.getPreviousClipIndex,
    ClipsService.canGoToNextClip, ClipsService.canGoToPreviousClip.
  assert (Hclip : ∀ j, 0 ≤ j < Z.of_nat (length (clips film)) →
            is_Some (ClipsService.clip_at film j)).
  { intros j Hj. unfold ClipsService.clip_at.
    destruct (Z.ltb_spec j 0); [lia |].
    apply lookup_lt_is_Some. lia. }
  split; [destruct (Z.ltb_spec i (Z.of_nat (length (clips film)) - 1)); lia |].
  split; [destruct (Z.ltb_spec 0 i); lia |].
  split.
  - intros Hi Hnext. apply Z.ltb_lt in Hnext.
    split; [apply Hclip |]; lia.
  - intros Hi Hprev. apply Z.ltb_lt in Hprev.
    split; [apply Hclip |]; lia.
Qed.

(** X10. [getCurrentClip] yields the clip of the saved index, the first
    clip when there is no progress, and [null] exactly when that index is
    outside the film; an index the access check accepts is never
    outside. *)
Theorem current_clip (film : Film) (p : WatchProgress) (premium : bool) :
  ClipsService.getCurrentClip film None = head (clips film)
  ∧ (ClipsService.getCurrentClip film (Some p) = None ↔
     currentClipIndex p < 0
     ∨ Z.of_nat (length (clips film)) ≤ currentClipIndex p)
  ∧ (ClipsService.canAccessClip film (currentClipIndex p) premium = true →
     is_Some (ClipsService.getCurrentClip film (Some p))).
Proof.
  unfold ClipsService.getCurrentClip. split; [| split].
  - unfold ClipsService.clip_at. cbn. by destruct (clips film).
  - apply clip_at_None.
  - unfold ClipsService.canAccessClip.
    by destruct (ClipsService.clip_at film (currentClipIndex p)).
Qed.

(** ** The watch screen *)

(** X11. A clip change that the access check refuses shows the alert and
    does nothing else: the screen state is unchanged and no record is
    written.  A clip change it accepts makes the clip current and persists
    position 0 of that clip at once, on whatever second the player is. *)
Theorem handleClipChange_effect (f : Film) (clipIndex : Z) (s : WatchState)
        (w : World) (Hfilm : film s = Some f) :
  if ClipsService.canAccessClip f clipIndex false
  then ∃ s' w',
         Watch.handleClipChange clipIndex s w = (Returned s', w')
         ∧ watch_clipIndex s' = clipIndex
         ∧ film s' = Some f
         ∧ position_of <$> watchProgress s'
           = Some (film_id f, Watch.user_id_or_empty (user s), clipIndex, 0%Q)
         ∧ map position_of (persisted_writes (calls w'))
           = map position_of (persisted_writes (calls w))
             ++ [(film_id f, Watch.user_id_or_empty (user s), clipIndex, 0%Q)]
  else Watch.handleClipChange clipIndex s w
       = (Returned s, log_call (AlertShown "Premium Content") w).
Proof.
  unfold Watch.handleClipChange. rewrite Hfilm.
  destruct (ClipsService.canAccessClip f clipIndex false); [| done].
  rewrite (saveProgress_runs f) by done. cbn zeta.
  eexists _, _. split; [reflexivity |].
  set (p := mkProgress _ _ _ _ _).
  destruct (saveWatchProgress_writes p w) as [Hw _].
  cbn. rewrite Hw, map_app. by repeat split.
Qed.

Lemma handleClipChange_effect_witness :
  film (watch (Screen.mount film5 None 0)) = Some film5
  ∧ Watch.handleClipChange 3 (watch (Screen.mount film5 None 0)) quiet_world
    = (Returned (watch (Screen.mount film5 None 0)),
       log_call (AlertShown "Premium Content") quiet_world).
Proof.
  split; [reflexivity |].
  exact (handleClipChange_effect film5 3 (watch (Screen.mount film5 None 0))
           quiet_world eq_refl).
Defined.

Lemma getAllFilms_returns
      (films_query : io (option (list RawFilm) * option string)) (w : World) :
  ∃ r w', ClipsService.getAllFilms films_query w = (Returned r, w').
Proof.
  unfold ClipsService.getAllFilms, ClipsService.console_log. io_unfold.
  destruct (films_query w) as [[[[[| row rows] |] [err |]] | e] w1]; cbn;
    eauto.
Qed.

Lemma getFilm_returns
      (film_query : string → io (option RawFilm * option string))
      (id : string) (w : World) :
  ∃ r w', ClipsService.getFilm film_query id w = (Returned r, w')
    ∧ (r = None
       ∨ ∃ row stamp,
           r = Some (ClipsService.film_of_row "cover_url" stamp row)).
Proof.
  unfold ClipsService.getFilm. io_unfold.
  destruct (film_query id w) as [[[[row |] [err |]] | e] w1]; cbn; eauto 8.
Qed.

Lemma getFilm_serves
      (film_query : string → io (option RawFilm * option string))
      (id : string) (row : RawFilm) (w : World) :
  serves film_query id row →
  ClipsService.getFilm film_query id w
  = (Returned (Some (ClipsService.film_of_row "cover_url"
                       (clock w (length (calls w))) row)), w).
Proof.
  intros Hserves. unfold ClipsService.getFilm. io_unfold.
  by rewrite Hserves.
Qed.

Lemma getWatchProgress_returns (u : option string) (f : string) (w : World) :
  ∃ r w', ClipsService.getWatchProgress u f w = (Returned r, w').
Proof.
  rewrite getWatchProgress_runs.
  destruct (authenticated u) as [v |];
    [destruct (remote_record v f w) |];
    rewrite ?getLocalProgress_runs; eauto.
Qed.

Lemma load_body_returns
      (films_query : io (option (list RawFilm) * option string))
      (film_query : string → io (option RawFilm * option string))
      (filmId : option string) (s : WatchState) (w : World) :
  ∃ st w',
    Watch.load_body films_query film_query filmId s w = (Returned st, w')
    ∧ user st = user s
    ∧ (st = s
       ∨ ∃ row stamp,
           film st
           = Some (film_of (ClipsService.film_of_row "cover_url" stamp row))
           ∧ watch_clipIndex st
             = match watchProgress st with
               | Some p => currentClipIndex p
               | None => 0
               end).
Proof.
  assert (Hrest : ∀ id v, ∃ st w',
            (filmData ← ClipsService.getFilm film_query id;
             match filmData with
             | None => Watch.alert "Error";; mret s
             | Some fd =>
                 progress ← ClipsService.getWatchProgress
                              (Watch.present (user s)) id;
                 mret (mkWatch (Some (film_of fd))
                         match progress with
                         | Some p => currentClipIndex p
                         | None => 0
                         end progress (user s))
             end) v = (Returned st, w')
            ∧ user st = user s
            ∧ (st = s
               ∨ ∃ row stamp,
                   film st
                   = Some (film_of (ClipsService.film_of_row
                                      "cover_url" stamp row))
                   ∧ watch_clipIndex st
                     = match watchProgress st with
                       | Some p => currentClipIndex p
                       | None => 0
                       end)).
  { intros id v. unfold mbind at 1. unfold io_bind.
    destruct (getFilm_returns film_query id v)
      as (r & v1 & -> & [-> | (row & stamp & ->)]).
    - eexists _, _. split; [reflexivity |]. split; [done | by left].
    - unfold mbind, io_bind.
      destruct (getWatchProgress_returns (Watch.present (user s)) id v1)
        as (pr & v2 & ->).
      eexists _, _. split; [reflexivity |]. split; [done |].
      right. by exists row, stamp. }
  unfold Watch.load_body. unfold mbind at 1. unfold io_bind.
  destruct (Watch.present filmId) as [id |].
  - cbn. apply Hrest.
  - unfold mbind at 1. unfold io_bind.
    destruct (getAllFilms_returns films_query w) as (r & w1 & ->).
    destruct r as [| first rest]; cbn.
    + eexists _, _. split; [reflexivity |]. split; [done | by left].
    + apply Hrest.
Qed.

(** X12. [loadFilmAndProgress] never rejects and always ends with
    [loading = false], whatever the content store, the remote table and the
    cache do.  Its body never throws either: the screen state is left as it
    was, or it holds a film built by [getFilm] with the clip index of the
    progress that was read (0 when there is none). *)
Theorem load_always_finishes
        (films_query : io (option (list RawFilm) * option string))
        (film_query : string → io (option RawFilm * option string))
        (filmId : option string) (s : Watch.WatchScreen) (w : World) :
  ∃ s' w',
    Watch.loadFilmAndProgress films_query film_query filmId s w
    = (Returned s', w')
    ∧ Watch.loading s' = false
    ∧ user (Watch.screen_state s') = user (Watch.screen_state s)
    ∧ (∃ st, (Watch.load_body films_query film_query filmId
                (Watch.screen_state s) w).1 = Returned st)
    ∧ (Watch.screen_state s' = Watch.screen_state s
       ∨ ∃ row stamp,
           film (Watch.screen_state s')
           = Some (film_of (ClipsService.film_of_row "cover_url" stamp row))
           ∧ watch_clipIndex (Watch.screen_state s')
             = match watchProgress (Watch.screen_state s') with
               | Some p => currentClipIndex p
               | None => 0
               end).
Proof.
  unfold Watch.loadFilmAndProgress. unfold mbind, io_bind, try_catch.
  destruct (load_body_returns films_query film_query filmId
              (Watch.screen_state s) w) as (st & w' & -> & Huser & Hst).
  cbn. eexists _, _. split; [reflexivity |]. cbn. eauto 6.
Qed.

Lemma authenticated_present (o : option string) :
  authenticated (Watch.present o) = Watch.present o.
Proof.
  unfold authenticated, Watch.present. destruct o as [u |]; [| done].
  destruct (truthy u) eqn:Hu; [by rewrite Hu | done].
Qed.

Lemma present_user_id (o : option string) (u : string) :
  Watch.present o = Some u → Watch.user_id_or_empty o = u.
Proof.
  unfold Watch.present, Watch.user_id_or_empty.
  destruct o as [v |]; [| done]. destruct (truthy v); [| done].
  by intros [= <-].
Qed.

(** X13. Leaving and coming back: after a clip change that the access
    check accepts, loading the same film again resumes at that clip, at
    position 0, provided the content store serves the film and the
    progress can travel: through the cache for a viewer who is not signed
    in or while the remote store does not answer, through the remote
    table for a signed-in viewer when it answers. *)
Theorem leave_and_resume
        (films_query : io (option (list RawFilm) * option string))
        (film_query : string → io (option RawFilm * option string))
        (f : Film) (row : RawFilm) (clipIndex : Z) (s : WatchState)
        (w : World)
        (Hfilm : film s = Some f)
        (Hid : truthy (film_id f) = true)
        (Hserves : serves film_query (film_id f) row)
        (Haccess : ClipsService.canAccessClip f clipIndex false = true)
        (Hpath : ((∀ n, storage_fails w n = false)
                  ∧ (Watch.present (user s) = None
                     ∨ ∀ n, remote w n ≠ RemoteOk))
                 ∨ (is_Some (Watch.present (user s))
                    ∧ ∀ n, remote w n = RemoteOk)) :
  ∃ s1 w1 s2 w2 stamp,
    Watch.handleClipChange clipIndex s w = (Returned s1, w1)
    ∧ Watch.loadFilmAndProgress films_query film_query (Some (film_id f))
        (Watch.mkScreen s1 false) w1
      = (Returned s2, w2)
    ∧ Watch.loading s2 = false
    ∧ film (Watch.screen_state s2)
      = Some (film_of (ClipsService.film_of_row "cover_url" stamp row))
    ∧ watch_clipIndex (Watch.screen_state s2) = clipIndex
    ∧ position_of <$> watchProgress (Watch.screen_state s2)
      = Some (film_id f, Watch.user_id_or_empty (user s), clipIndex, 0%Q).
Proof.
  unfold Watch.handleClipChange. rewrite Hfilm, Haccess.
  rewrite (saveProgress_runs f) by done. cbn zeta.
  set (p := mkProgress (film_id f) clipIndex 0%Q _ _).
  set (w1 := (ClipsService.saveWatchProgress p w).2).
  assert (Hread : (ClipsService.getWatchProgress (Watch.present (user s))
                     (film_id f) w1).1 = Returned (Some p)).
  { apply (read_after_save p). rewrite authenticated_present.
    destruct Hpath as [Hlocal | [[u Hu] Hremote]]; [by left | right].
    split; [| done]. rewrite Hu. cbn. f_equal. symmetry.
    by apply present_user_id. }
  destruct (ClipsService.getWatchProgress (Watch.present (user s))
              (film_id f) w1) as [r w2] eqn:Hget.
  cbn in Hread. subst r.
  eexists _, w1, _, w2, (clock w1 (length (calls w1))).
  split; [reflexivity |].
  unfold Watch.loadFilmAndProgress, Watch.load_body, Watch.present.
  rewrite Hid. unfold mbind, io_bind, try_catch, mret, io_ret.
  rewrite (getFilm_serves film_query (film_id f) row w1 Hserves).
  cbn [Watch.screen_state user Watch.setWatchProgress
       Watch.setCurrentClipIndex].
  fold (Watch.present (user s)). rewrite Hget.
  split; [reflexivity |]. cbn. by repeat split.
Qed.

Lemma leave_and_resume_witness :
  let f := film_of (ClipsService.film_of_row "cover_url" "" raw_film3) in
  let film_query : string → io (option RawFilm * option string) :=
    λ _ w, (Returned (Some raw_film3, None), w) in
  let s := mkWatch (Some f) 0 None None in
  film s = Some f
  ∧ truthy (film_id f) = true
  ∧ serves film_query (film_id f) raw_film3
  ∧ ClipsService.canAccessClip f 1 false = true
  ∧ ∃ s1 w1 s2 w2 stamp,
      Watch.handleClipChange 1 s quiet_world = (Returned s1, w1)
      ∧ Watch.loadFilmAndProgress (λ w, (Returned (None, None), w))
          film_query (Some (film_id f)) (Watch.mkScreen s1 false) w1
        = (Returned s2, w2)
      ∧ Watch.loading s2 = false
      ∧ film (Watch.screen_state s2)
        = Some (film_of (ClipsService.film_of_row "cover_url" stamp raw_film3))
      ∧ watch_clipIndex (Watch.screen_state s2) = 1
      ∧ position_of <$> watchProgress (Watch.screen_state s2)
        = Some (film_id f, Watch.user_id_or_empty (user s), 1, 0%Q).
Proof.
  cbn zeta. split; [reflexivity |]. split; [reflexivity |].
  split; [intros w; reflexivity |]. split; [reflexivity |].
  exact (leave_and_resume (λ w, (Returned (None, None), w))
           (λ _ w, (Returned (Some raw_film3, None), w))
           (film_of (ClipsService.film_of_row "cover_url" "" raw_film3))
           raw_film3 1
           (mkWatch (Some (film_of (ClipsService.film_of_row
                                      "cover_url" "" raw_film3))) 0 None None)
           quiet_world eq_refl eq_refl (λ w, eq_refl) eq_refl
           (or_introl (conj (λ n, eq_refl) (or_introl eq_refl)))).
Defined.

(** ** The feed under every event *)

Lemma play_commands_app (cs ds : list call) :
  play_commands (cs ++ ds) = play_commands cs ++ play_commands ds.
Proof. apply omap_app. Qed.

Lemma saveWatchProgress_no_play (p : WatchProgress) (w : World) :
  play_commands (calls (ClipsService.saveWatchProgress p w).2)
  = play_commands (calls w).
Proof.
  rewrite saveWatchProgress_runs. cbn [snd]. cbn zeta.
  rewrite saveLocalProgress_runs. cbn [snd].
  destruct (truthy (userId p)); [rewrite syncProgressToCloud_runs; cbn [snd] |].
  all: destruct (storage_fails w (length (calls w))); cbn;
    try match goal with |- context [remote ?v ?n] => destruct (remote v n) end;
    cbn; rewrite !play_commands_app; cbn; by rewrite ?app_nil_r.
Qed.

(** The handlers of the watch screen resolve, keep film and user, and send
    no play command. *)
Lemma saveProgress_returns (clipIndex : Z) (t : Q) (s : WatchState)
      (w : World) :
  ∃ s' w', Watch.saveProgress clipIndex t s w = (Returned s', w')
    ∧ film s' = film s ∧ user s' = user s
    ∧ play_commands (calls w') = play_commands (calls w).
Proof.
  destruct (film s) as [f |] eqn:Hfilm.
  - rewrite (saveProgress_runs f) by done. cbn zeta.
    eexists _, _. split; [reflexivity |].
    rewrite saveWatchProgress_no_play. by cbn.
  - unfold Watch.saveProgress. rewrite Hfilm. by exists s, w.
Qed.

Lemma handleProgress_returns (clipIndex : Z) (t d : Q) (s : WatchState)
      (w : World) :
  ∃ s' w', Watch.handleProgress clipIndex t d s w = (Returned s', w')
    ∧ film s' = film s ∧ user s' = user s
    ∧ play_commands (calls w') = play_commands (calls w).
Proof.
  unfold Watch.handleProgress.
  destruct (Watch.on_save_boundary t); [apply saveProgress_returns |].
  by exists s, w.
Qed.

Lemma handleClipChange_returns (clipIndex : Z) (s : WatchState) (w : World) :
  ∃ s' w', Watch.handleClipChange clipIndex s w = (Returned s', w')
    ∧ film s' = film s ∧ user s' = user s
    ∧ play_commands (calls w') = play_commands (calls w).
Proof.
  unfold Watch.handleClipChange. destruct (film s) as [f |] eqn:Hfilm.
  - destruct (ClipsService.canAccessClip f clipIndex false).
    + destruct (saveProgress_returns clipIndex 0%Q
                  (Watch.setCurrentClipIndex clipIndex s) w)
        as (s' & w' & -> & Hf & Hu & Hp).
      exists s', w'. by rewrite Hf, Hu, Hp.
    + eexists _, _. split; [reflexivity |]. cbn.
      rewrite play_commands_app. cbn. by rewrite app_nil_r.
  - by exists s, w.
Qed.

Lemma not_awaited_of_returned {P} (m : P → io P) (p p' : P) (w w' : World) :
  m p w = (Returned p', w') → Player.not_awaited m p w = (Returned p', w').
Proof. intros Hm. unfold Player.not_awaited, try_catch. by rewrite Hm. Qed.

Lemma pauses_issued_no_play (old new : Z) (its : list VideoItem) :
  ∀ i, play_commands (pauses_issued old new i its) = [].
Proof.
  induction its as [| it rest IH]; intros i; cbn; [done |].
  rewrite play_commands_app, IH.
  by destruct (effect_fires old new i it).
Qed.

Lemma position_zero (positionMillis : Z) :
  Qeq_bool (inject_Z positionMillis / 1000) 0 = true → positionMillis = 0.
Proof.
  intros H. apply Qeq_bool_iff in H. unfold Qeq in H. cbn in H. lia.
Qed.

Lemma status_loaded_runs (a : App) (i : nat) (it : VideoItem)
      (pos : Z) (dur : option Z) (playing finished : bool) (w : World) :
  items (player a) !! i = Some it →
  ∃ p' w1 t d,
    film p' = film (watch a) ∧ user p' = user (watch a)
    ∧ play_commands (calls w1) = play_commands (calls w)
    ∧ Screen.step (PlaybackStatusUpdate i (StatusLoaded pos dur playing finished))
                  a w
      = (Returned
           (mkApp p'
              (mkPlayer (currentIndex (player a))
                 (<[i := mkItem (playing && negb finished)
                                (finished || showControls it) t d true
                                (videoRef it)]> (items (player a))))),
         if negb playing && Player.isVisible (currentIndex (player a)) i
            && negb finished && Qeq_bool (inject_Z pos / 1000) 0
            && videoRef it
         then log_call (PlayAsync i) w1 else w1).
Proof.
  intros Hit. cbn [Screen.step]. rewrite Hit.
  unfold Screen.handlePlaybackStatusUpdate, Player.handlePlaybackStatusUpdate,
    Player.handleProgress.
  unfold mbind at 1. unfold io_bind at 1.
  unfold mbind at 1. unfold io_bind at 1.
  match goal with
  | |- context [Player.not_awaited (Watch.handleProgress ?c ?t ?d) ?s _] =>
      destruct (handleProgress_returns c t d s w)
        as (p' & w1 & Hrun & Hf & Hu & Hp);
      rewrite (not_awaited_of_returned _ _ _ _ _ Hrun);
      exists p', w1, t, d
  end.
  split; [done |]. split; [done |]. split; [done |].
  unfold mbind, io_bind, mret, io_ret, Player.playAsync.
  destruct (negb playing && Player.isVisible (currentIndex (player a)) i
            && negb finished && Qeq_bool (inject_Z pos / 1000) 0
            && videoRef it); cbn [fst snd];
    by destruct playing, finished.
Qed.

Lemma togglePlayPause_runs (i : nat) (it : VideoItem) (w : World) :
  Player.togglePlayPause i it w
  = if negb (videoRef it) || negb (isLoaded it) then (Returned it, w)
    else if handle_fails w (length (calls w))
    then (Returned it,
          log_call (ConsoleError "Error toggling play/pause:")
                   (log_call (toggle_command i it) w))
    else (Returned (Player.setShowControls true
                      (Player.setIsPlaying (negb (isPlaying it)) it)),
          log_call (toggle_command i it) w).
Proof.
  unfold Player.togglePlayPause, toggle_command, Player.await_handle.
  io_unfold.
  destruct (negb (videoRef it) || negb (isLoaded it)); [done |].
  by destruct (isPlaying it), (handle_fails w (length (calls w))).
Qed.

Lemma step_returns (e : event) (a : App) (w : World) :
  ∃ a' w', Screen.step e a w = (Returned a', w')
    ∧ film (watch a') = film (watch a)
    ∧ user (watch a') = user (watch a)
    ∧ length (items (player a')) = length (items (player a)).
Proof.
  destruct e as [viewableItems | i status | i].
  - cbn [Screen.step]. unfold Screen.onViewableItemsChanged.
    unfold mbind at 1. unfold io_bind.
    destruct viewableItems as [| newIndex others].
    + cbn. eexists _, _. by split; [reflexivity |].
    + cbn [Player.onViewableItemsChanged]. unfold mbind, io_bind.
      destruct (handleClipChange_returns newIndex (watch a) w)
        as (p' & w1 & Hrun & Hf & Hu & _).
      rewrite (not_awaited_of_returned _ _ _ _ _ Hrun).
      destruct (run_effects_runs (currentIndex (player a)) newIndex
                  (items (player a)) 0 w1) as (w2 & -> & _).
      eexists _, _. split; [reflexivity |]. cbn.
      by rewrite items_after_effects_length.
  - destruct (items (player a) !! i) as [it |] eqn:Hit.
    + destruct status as [| pos dur playing finished].
      * cbn [Screen.step]. rewrite Hit. cbn.
        eexists _, _. split; [reflexivity |]. cbn.
        by rewrite length_insert.
      * destruct (status_loaded_runs a i it pos dur playing finished w Hit)
          as (p' & w1 & t & d & Hf & Hu & _ & ->).
        eexists _, _. split; [reflexivity |]. cbn.
        by rewrite length_insert.
    + cbn [Screen.step]. rewrite Hit. by exists a, w.
  - cbn [Screen.step].
    destruct (items (player a) !! i) as [it |] eqn:Hit; [| by exists a, w].
    unfold mbind, io_bind. rewrite togglePlayPause_runs.
    destruct (negb (videoRef it) || negb (isLoaded it));
      [| destruct (handle_fails w (length (calls w)))];
      (eexists _, _; split; [reflexivity |]; cbn; by rewrite length_insert).
Qed.

(** X14. Every handler of the watch screen runs to its end: along every
    run of visibility reports, playback statuses and presses, no failure of
    the cache, of the remote table or of a handle command that is awaited
    (the one of [togglePlayPause]) propagates out of a handler, and the
    run keeps the film, the user and the number of items.  The promises of
    [handleClipChange] and [handleProgress], which the feed does not await,
    never reject.  The promises of the handle commands that are not awaited
    (the pause of the visibility effect and the automatic play) are dropped
    by the code: their rejection is the outcome of no handler and is no
    part of this statement. *)
Theorem screen_handlers_complete (es : list event) (a : App) (w : World) :
  (∃ a' w', Screen.run es a w = (Returned a', w')
     ∧ film (watch a') = film (watch a)
     ∧ user (watch a') = user (watch a)
     ∧ length (items (player a')) = length (items (player a)))
  ∧ (∀ clipIndex s v, ∃ s' v',
       Watch.handleClipChange clipIndex s v = (Returned s', v'))
  ∧ (∀ clipIndex t d s v, ∃ s' v',
       Watch.handleProgress clipIndex t d s v = (Returned s', v')).
Proof.
  split; [| split].
  - revert a w. induction es as [| e rest IH]; intros a w.
    + by exists a, w.
    + cbn [Screen.run]. unfold mbind, io_bind.
      destruct (step_returns e a w) as (a1 & w1 & -> & Hf & Hu & Hl).
      destruct (IH a1 w1) as (a' & w' & -> & Hf' & Hu' & Hl').
      exists a', w'. split; [done |]. by rewrite Hf', Hu', Hl'.
  - intros clipIndex s v.
    destruct (handleClipChange_returns clipIndex s v) as (s' & v' & Hrun & _).
    by exists s', v'.
  - intros clipIndex t d s v.
    destruct (handleProgress_returns clipIndex t d s v) as (s' & v' & Hrun & _).
    by exists s', v'.
Qed.

(** X15. A playback status never moves the active index and touches no
    item but its own.  The only play command it can cause is the automatic
    one, sent to the item itself when it is the active one and reports
    position 0, not playing, not finished; a status that reports the end
    of the clip sends no command and leaves the item not playing, so that
    nothing advances or restarts by itself. *)
Theorem status_update_effect (a : App) (i : nat) (st : AVPlaybackStatus)
        (w : World) :
  ∃ a' w',
    Screen.step (PlaybackStatusUpdate i st) a w = (Returned a', w')
    ∧ currentIndex (player a') = currentIndex (player a)
    ∧ (∀ j, j ≠ i → items (player a') !! j = items (player a) !! j)
    ∧ (play_commands (calls w') = play_commands (calls w)
       ∨ play_commands (calls w') = play_commands (calls w) ++ [i]
         ∧ Z.of_nat i = currentIndex (player a)
         ∧ ∃ dur, st = StatusLoaded 0 dur false false)
    ∧ match st with
      | StatusUnloaded =>
          w' = w ∧ watch a' = watch a
          ∧ isLoaded <$> items (player a') !! i
            = (λ _, false) <$> items (player a) !! i
      | StatusLoaded _ _ playing finished =>
          isPlaying <$> items (player a') !! i
          = (λ _, playing && negb finished) <$> items (player a) !! i
          ∧ (finished = true →
             play_commands (calls w') = play_commands (calls w))
      end.
Proof.
  destruct (items (player a) !! i) as [it |] eqn:Hit.
  - assert (Hlt : (i < length (items (player a)))%nat)
      by (by eapply lookup_lt_Some).
    destruct st as [| pos dur playing finished].
    + cbn [Screen.step]. rewrite Hit. cbn.
      eexists _, _. split; [reflexivity |]. cbn [player currentIndex items].
      split; [done |].
      split; [by intros j Hj; apply list_lookup_insert_ne |].
      split; [by left |]. split; [done |]. split; [done |].
      by rewrite list_lookup_insert_eq.
    + destruct (status_loaded_runs a i it pos dur playing finished w Hit)
        as (p' & w1 & t & d & _ & _ & Hp & ->).
      eexists _, _. split; [reflexivity |]. cbn [player currentIndex items].
      split; [done |].
      split; [by intros j Hj; apply list_lookup_insert_ne |].
      rewrite list_lookup_insert_eq by done. cbn [fmap option_fmap option_map].
      destruct (negb playing && Player.isVisible (currentIndex (player a)) i
                && negb finished && Qeq_bool (inject_Z pos / 1000) 0
                && videoRef it) eqn:Hauto.
      * repeat (apply andb_true_iff in Hauto as [Hauto ?]).
        destruct playing, finished; try discriminate.
        split; [| by split]. right.
        cbn. rewrite play_commands_app, Hp. cbn.
        split; [done |]. split; [by apply Z.eqb_eq |].
        exists dur. f_equal. by apply position_zero.
      * split; [by left |]. by split.
  - cbn [Screen.step]. rewrite Hit. exists a, w.
    split; [done |]. split; [done |]. split; [done |]. split; [by left |].
    destruct st; by rewrite ?Hit.
Qed.

(** X16. A press on play/pause changes [isPlaying] exactly when the item is
    loaded, has its video handle, and the handle accepts the command; the
    command sent is then the one for the new state, and a second press
    with a working handle restores the old state.  In every other case the
    item is left as it was. *)
Theorem press_play_pause (i : nat) (it : VideoItem) (w : World) :
  ∃ it1 w1,
    Player.togglePlayPause i it w = (Returned it1, w1)
    ∧ (isPlaying it1 ≠ isPlaying it ↔
       videoRef it = true ∧ isLoaded it = true
       ∧ handle_fails w (length (calls w)) = false)
    ∧ (isPlaying it1 = isPlaying it → it1 = it)
    ∧ (isPlaying it1 ≠ isPlaying it →
       calls w1
       = calls w ++ [if isPlaying it1 then PlayAsync i else PauseAsync i])
    ∧ (isPlaying it1 ≠ isPlaying it →
       handle_fails w (length (calls w1)) = false →
       ∃ it2 w2,
         Player.togglePlayPause i it1 w1 = (Returned it2, w2)
         ∧ isPlaying it2 = isPlaying it).
Proof.
  rewrite togglePlayPause_runs.
  destruct (videoRef it) eqn:Href, (isLoaded it) eqn:Hload; cbn [negb orb].
  2-4: exists it, w; split; [done |]; split; [| by split];
    split; [done | by intros (? & ? & ?)].
  destruct (handle_fails w (length (calls w))) eqn:Hfail.
  - eexists _, _. split; [reflexivity |].
    split; [split; [done | by intros (? & ? & ?)] |]. by split.
  - eexists _, _. split; [reflexivity |]. cbn [isPlaying Player.setShowControls
      Player.setIsPlaying].
    split; [split; [done | by destruct (isPlaying it)] |].
    split; [by destruct (isPlaying it) |].
    split.
    + intros _. cbn. unfold toggle_command. by destruct (isPlaying it).
    + intros _ Hnext. rewrite togglePlayPause_runs.
      cbn [videoRef isLoaded Player.setShowControls Player.setIsPlaying
           handle_fails log_call].
      rewrite Href, Hload. cbn [negb orb]. rewrite Hnext.
      eexists _, _. split; [reflexivity |]. cbn.
      by destruct (isPlaying it).
Qed.

Lemma insert_keeps_invariant (current : Z) (its : list VideoItem)
      (i : nat) (it' : VideoItem) :
  only_active_plays (mkPlayer current its) →
  (isPlaying it' = true → Z.of_nat i = current ∧ videoRef it' = true) →
  only_active_plays (mkPlayer current (<[i := it']> its)).
Proof.
  intros Hinv Hit j x. cbn [items currentIndex].
  rewrite list_lookup_insert_Some.
  intros [(<- & <- & _) | [_ Hj]]; [exact Hit |].
  by apply (Hinv j x).
Qed.

Lemma step_keeps_invariant (e : event) (a : App) (w : World) :
  only_active_plays (player a) →
  on_active_clip e (player a) = true →
  ∃ a' w', Screen.step e a w = (Returned a', w')
    ∧ only_active_plays (player a').
Proof.
  intros Hinv Hev.
  assert (Hplayer : player a = mkPlayer (currentIndex (player a))
                                        (items (player a)))
    by (by destruct (player a)).
  destruct e as [viewableItems | i status | i].
  - cbn [Screen.step]. unfold Screen.onViewableItemsChanged.
    unfold mbind, io_bind.
    destruct (onViewableItemsChanged_step Watch.handleClipChange
                viewableItems (player a) (watch a) w Hinv)
      as (s' & p' & w' & -> & Hinv' & _).
    eexists _, _. by split; [reflexivity |].
  - destruct (items (player a) !! i) as [it |] eqn:Hit.
    + destruct status as [| pos dur playing finished].
      * cbn [Screen.step]. rewrite Hit. cbn.
        eexists _, _. split; [reflexivity |]. cbn [player].
        apply insert_keeps_invariant; [by rewrite <- Hplayer |].
        cbn. intros Hplay. by apply (Hinv i it).
      * destruct (status_loaded_runs a i it pos dur playing finished w Hit)
          as (p' & w1 & t & d & _ & _ & _ & ->).
        eexists _, _. split; [reflexivity |]. cbn [player].
        apply insert_keeps_invariant; [by rewrite <- Hplayer |].
        cbn [isPlaying videoRef]. intros Hplay.
        apply andb_true_iff in Hplay as [-> Hfin].
        apply negb_true_iff in Hfin as ->.
        cbn [on_active_clip] in Hev. rewrite Hit in Hev.
        apply andb_true_iff in Hev as [Hvis Href].
        split; [by apply Z.eqb_eq | done].
    + cbn [Screen.step]. rewrite Hit. by exists a, w.
  - cbn [Screen.step on_active_clip] in *.
    destruct (items (player a) !! i) as [it |] eqn:Hit; [| by exists a, w].
    unfold mbind, io_bind. rewrite togglePlayPause_runs.
    destruct (videoRef it) eqn:Href, (isLoaded it) eqn:Hload; cbn [negb orb].
    2-4: eexists _, _; split; [reflexivity |]; cbn [player];
      apply insert_keeps_invariant; [by rewrite <- Hplayer |];
      intros Hplay; by apply (Hinv i it).
    destruct (handle_fails w (length (calls w))).
    + eexists _, _. split; [reflexivity |]. cbn [player].
      apply insert_keeps_invariant; [by rewrite <- Hplayer |].
      intros Hplay. by apply (Hinv i it).
    + eexists _, _. split; [reflexivity |]. cbn [player].
      apply insert_keeps_invariant; [by rewrite <- Hplayer |].
      cbn. intros _. split; [by apply Z.eqb_eq | done].
Qed.

(** X17. The single-active invariant holds along every run of the screen
    in which presses and playing statuses come from the clip that is
    active when they arrive: after such a run at most one clip has
    [isPlaying = true], and it is the active one. *)
Theorem active_events_keep_invariant (es : list event) (a : App) (w : World)
        (Hinv : single_active (player a) = true)
        (Hev : events_on_active es a w = true) :
  ∃ a' w',
    Screen.run es a w = (Returned a', w')
    ∧ single_active (player a') = true
    ∧ (playing_count (player a') ≤ 1)%nat.
Proof.
  revert a w Hinv Hev. induction es as [| e rest IH]; intros a w Hinv Hev.
  - exists a, w. split; [done |]. split; [done |].
    by apply only_active_plays_count, single_active_spec.
  - cbn [events_on_active] in Hev. apply andb_true_iff in Hev as [He Hrest].
    cbn [Screen.run]. unfold mbind, io_bind.
    destruct (step_keeps_invariant e a w) as (a1 & w1 & Hstep & Hinv1);
      [by apply single_active_spec | done |].
    rewrite Hstep in Hrest |- *.
    apply IH; [by apply single_active_spec | done].
Qed.

Lemma active_events_keep_invariant_witness :
  let a := Screen.mount film5 None 0 in
  let es := [PlaybackStatusUpdate 0 (StatusLoaded 0 (Some 60000) false false);
             PlaybackStatusUpdate 0 (StatusLoaded 333 (Some 60000) true false);
             PressPlayPause 0;
             ViewableItemsChanged [1];
             PlaybackStatusUpdate 0 (StatusLoaded 400 (Some 60000) false false);
             PlaybackStatusUpdate 1 (StatusLoaded 0 (Some 60000) false false);
             PlaybackStatusUpdate 1 (StatusLoaded 20 (Some 60000) true false)]
  in
  single_active (player a) = true
  ∧ events_on_active es a quiet_world = true
  ∧ ∃ a' w',
      Screen.run es a quiet_world = (Returned a', w')
      ∧ single_active (player a') = true
      ∧ (playing_count (player a') ≤ 1)%nat.
Proof.
  cbn zeta. split; [reflexivity |]. split; [by vm_compute |].
  exact (active_events_keep_invariant
           [PlaybackStatusUpdate 0 (StatusLoaded 0 (Some 60000) false false);
            PlaybackStatusUpdate 0 (StatusLoaded 333 (Some 60000) true false);
            PressPlayPause 0;
            ViewableItemsChanged [1];
            PlaybackStatusUpdate 0 (StatusLoaded 400 (Some 60000) false false);
            PlaybackStatusUpdate 1 (StatusLoaded 0 (Some 60000) false false);
            PlaybackStatusUpdate 1 (StatusLoaded 20 (Some 60000) true false)]
           (Screen.mount film5 None 0) quiet_world eq_refl eq_refl).
Defined.

Lemma handleProgress_writes (f : Film) (clipIndex : Z) (t d : Q)
      (s : WatchState) (w : World) :
  film s = Some f →
  ∃ s' w',
    Watch.handleProgress clipIndex t d s w = (Returned s', w')
    ∧ map position_of (persisted_writes (calls w'))
      = map position_of (persisted_writes (calls w))
        ++ (if Watch.on_save_boundary t
            then [(film_id f, Watch.user_id_or_empty (user s), clipIndex, t)]
            else []).
Proof.
  intros Hfilm. unfold Watch.handleProgress.
  destruct (Watch.on_save_boundary t).
  - rewrite (saveProgress_runs f) by done. cbn zeta.
    eexists _, _. split; [reflexivity |].
    set (p := mkProgress _ _ _ _ _).
    destruct (saveWatchProgress_writes p w) as [Hw _].
    by rewrite Hw, map_app.
  - exists s, w. by rewrite app_nil_r.
Qed.

(** X18. What a playback status persists: when the position it reports
    lies in a second that is a multiple of 10, one record is written, and
    it carries the active index of the feed together with the position of
    the item that reported, whichever item that is; off such a second
    nothing is written. *)
Theorem status_persists_under_active_index
        (a : App) (f : Film) (i : nat) (it : VideoItem)
        (pos : Z) (dur : option Z) (playing finished : bool) (w : World)
        (Hit : items (player a) !! i = Some it)
        (Hfilm : film (watch a) = Some f) :
  let t := (inject_Z pos / 1000)%Q in
  ∃ a' w',
    Screen.step (PlaybackStatusUpdate i (StatusLoaded pos dur playing finished))
                a w
    = (Returned a', w')
    ∧ map position_of (persisted_writes (calls w'))
      = map position_of (persisted_writes (calls w))
        ++ (if Watch.on_save_boundary t
            then [(film_id f, Watch.user_id_or_empty (user (watch a)),
                   currentIndex (player a), t)]
            else []).
Proof.
  cbn zeta. cbn [Screen.step]. rewrite Hit.
  unfold Screen.handlePlaybackStatusUpdate, Player.handlePlaybackStatusUpdate,
    Player.handleProgress.
  unfold mbind at 1. unfold io_bind at 1.
  unfold mbind at 1. unfold io_bind at 1.
  match goal with
  | |- context [Player.not_awaited (Watch.handleProgress ?c ?t ?d) ?s _] =>
      destruct (handleProgress_writes f c t d s w Hfilm)
        as (p' & w1 & Hrun & Hw);
      rewrite (not_awaited_of_returned _ _ _ _ _ Hrun)
  end.
  unfold mbind, io_bind, mret, io_ret, Player.playAsync.
  destruct (negb playing && Player.isVisible (currentIndex (player a)) i
            && negb finished && Qeq_bool (inject_Z pos / 1000) 0
            && videoRef it); cbn [fst snd];
    (eexists _, _; split; [reflexivity |]).
  - cbn. rewrite persisted_writes_app. cbn. by rewrite app_nil_r.
  - done.
Qed.

Lemma status_persists_under_active_index_witness :
  let a := Screen.mount film5 (Some "u1") 0 in
  items (player a) !! 1%nat = Some Screen.mounted_item
  ∧ film (watch a) = Some film5
  ∧ ∃ a' w',
      Screen.step (PlaybackStatusUpdate 1
                     (StatusLoaded 20500 (Some 60000) false false))
                  a quiet_world
      = (Returned a', w')
      ∧ map position_of (persisted_writes (calls w'))
        = map position_of (persisted_writes (calls quiet_world))
          ++ (if Watch.on_save_boundary (inject_Z 20500 / 1000)
              then [(film_id film5,
                     Watch.user_id_or_empty (user (watch a)),
                     currentIndex (player a), (inject_Z 20500 / 1000)%Q)]
              else []).
Proof.
  cbn zeta. split; [reflexivity |]. split; [reflexivity |].
  exact (status_persists_under_active_index
           (Screen.mount film5 (Some "u1") 0) film5 1 Screen.mounted_item
           20500 (Some 60000) false false quiet_world eq_refl eq_refl).
Defined.
